(** * Sustainable-travel RAG backend: shallow embedding and verified properties

    The development follows the Python sources of the retrieval-and-generation
    subsystem:

    - [rag_system/rag_pipeline.py]            (class [RAGProcessor])
    - [rag_system/vector_store.py]            (class [PineconeManager])
    - [rag_system/knowledge_base_builder.py]  (class [KnowledgeBaseBuilder])
    - [rag_system/data_processor.py]          (class [DataProcessor])
    - [rag_system/embeddings_generator.py]    (class [EmbeddingsGenerator])
    - [langchain_service/langchain_pipeline.py]
                                              (class [SimpleSustainableTravelRAG])
    - [services/rasa/services/langchain_service.py]
                                              (class [SustainableTravelRAGService])

    Conventions of the embedding.

    - A Python [str] is a [string]; each character stands for one code point
      below 256, so [String.length] is Python's [len].
    - A Python [float] is an exact rational of [Q]; results are compared with
      [==].  Where the binary value of a float decides the outcome, in [round],
      the binary float is computed beside it.
    - A Python call that may raise returns a [Result]: [Ok v] or [Raise e].
    - Remote services (the retriever, the language model, the tokenizer, the
      Pinecone index, the wall clock) are not part of the repository.  They are
      fields of an environment record, or scripted outcomes inside the state.
    - Calls to [logger] have no effect on any value and are left out. *)

From Stdlib Require Import Uint63 PrimFloat FloatOps SpecFloat.
From Stdlib Require Import QArith Qround Qminmax Qabs Lqa.
From Stdlib Require Import ZArith Lia List Bool Ascii String.
From Stdlib Require Import Sorting.Sorted Sorting.Permutation.
From stdpp Require Import base option list strings pretty gmap fin_maps.

Import ListNotations.
Local Open Scope string_scope.
Local Open Scope list_scope.

(** ** Python values shared by all modules *)

Module Py.

(** Exceptions the modelled code can raise or receive from a collaborator. *)
Inductive Exn : Type :=
| AssertionError (msg : string)
| ValueError (msg : string)
| TypeError (msg : string)
| KeyError (key : string)
| ZeroDivisionError
| ExternalError (msg : string).

Inductive Result (A : Type) : Type :=
| Ok (v : A)
| Raise (e : Exn).
Arguments Ok {A} v.
Arguments Raise {A} e.

Definition bind {A B : Type} (r : Result A) (k : A -> Result B) : Result B :=
  match r with
  | Ok v => k v
  | Raise e => Raise e
  end.

(** [try: body except Exception as e: handler e] *)
Definition try_except {A : Type} (body : Result A) (handler : Exn -> Result A)
  : Result A :=
  match body with
  | Ok v => Ok v
  | Raise e => handler e
  end.

Definition raises {A : Type} (r : Result A) : bool :=
  match r with
  | Ok _ => false
  | Raise _ => true
  end.

(** *** Strings *)

Definition code (c : ascii) : nat := nat_of_ascii c.

(** [str.lower] on one code point below 256: [A-Z] and the Latin-1 capitals
    [U+00C0 .. U+00DE] except the multiplication sign [U+00D7]. *)
Definition lower_char (c : ascii) : ascii :=
  let n := code c in
  if ((65 <=? n) && (n <=? 90))%nat then ascii_of_nat (n + 32)
  else if ((192 <=? n) && (n <=? 222) && negb (n =? 215))%nat
       then ascii_of_nat (n + 32)
       else c.

Fixpoint lower (s : string) : string :=
  match s with
  | EmptyString => EmptyString
  | String c r => String (lower_char c) (lower r)
  end.

(** [str.isspace] on one code point below 256. *)
Definition isspace (c : ascii) : bool :=
  let n := code c in
  (((9 <=? n) && (n <=? 13)) || ((28 <=? n) && (n <=? 32))
   || (n =? 133) || (n =? 160))%nat.

Fixpoint lstrip (s : string) : string :=
  match s with
  | EmptyString => EmptyString
  | String c r => if isspace c then lstrip r else s
  end.

Fixpoint rev_string_onto (s acc : string) : string :=
  match s with
  | EmptyString => acc
  | String c r => rev_string_onto r (String c acc)
  end.

Definition rev_string (s : string) : string := rev_string_onto s EmptyString.

Definition rstrip (s : string) : string := rev_string (lstrip (rev_string s)).

(** [s.strip()] *)
Definition strip (s : string) : string := rstrip (lstrip s).

Fixpoint startswith (p s : string) : bool :=
  match p, s with
  | EmptyString, _ => true
  | String a p', String b s' => if Ascii.eqb a b then startswith p' s' else false
  | String _ _, EmptyString => false
  end.

(** [needle in hay] for two strings *)
Fixpoint contains (needle hay : string) : bool :=
  if startswith needle hay then true
  else match hay with
       | EmptyString => false
       | String _ r => contains needle r
       end.

(** [any(word in s for word in words)] *)
Definition any_in (words : list string) (s : string) : bool :=
  existsb (fun w => contains w s) words.

(** [s[:n]] for [n >= 0] *)
Fixpoint prefix_upto (n : nat) (s : string) : string :=
  match n, s with
  | O, _ => EmptyString
  | S _, EmptyString => EmptyString
  | S k, String c r => String c (prefix_upto k r)
  end.

(** [sep.join(parts)] *)
Fixpoint join (sep : string) (parts : list string) : string :=
  match parts with
  | [] => EmptyString
  | [p] => p
  | p :: rest => p +:+ sep +:+ join sep rest
  end.

(** Truth value of a string: [bool(s)] *)
Definition truthy (s : string) : bool :=
  match s with
  | EmptyString => false
  | String _ _ => true
  end.

(** *** Lists *)

(** [l[i:j]] for [0 <= i], [0 <= j] *)
Definition slice {A : Type} (i j : nat) (l : list A) : list A :=
  firstn (j - i) (skipn i l).

(** [l[-n:]]: the last [n] elements, all of [l] when it is shorter; [l[-0:]] is
    [l[0:]], the whole list. *)
Definition last_n {A : Type} (n : nat) (l : list A) : list A :=
  match n with
  | O => l
  | S _ => skipn (length l - n) l
  end.

(** [range(0, stop, step)] for [step > 0], as the list of its values *)
Definition range_step (stop step : nat) : list nat :=
  map (fun j => (j * step)%nat) (seq 0 (Nat.div (stop + step - 1) step)).

(** *** Numbers *)

(** The exact value of a finite binary float. *)
Definition exact (x : float) : Q :=
  match Prim2SF x with
  | S754_finite sign m e =>
      let v := match e with
               | Zneg p => Qmake (Zpos m) (2 ^ p)
               | _ => inject_Z (Zpos m * 2 ^ e)
               end in
      if sign then Qopp v else v
  | _ => 0%Q
  end.

(** [round(x, 2)] for the binary float [x] that stands for the real number [q].
    Python rounds the exact value of [x] to the nearest multiple of 1/100, a tie
    going to the even multiple.  With [x] next to [q] that is the multiple
    nearest to [q], unless [q] is exactly halfway between two multiples: there
    the side on which [x] lies decides, and the even multiple when [x] is [q]
    itself. *)
Definition round2 (x : float) (q : Q) : Q :=
  let s := (q * 100)%Q in
  let f := Qfloor s in
  let r := (s - inject_Z f)%Q in
  let n := match (r ?= 1 # 2)%Q with
           | Lt => f
           | Gt => (f + 1)%Z
           | Eq => match (exact x ?= q)%Q with
                   | Lt => f
                   | Gt => (f + 1)%Z
                   | Eq => if Z.even f then f else (f + 1)%Z
                   end
           end in
  (inject_Z n / 100)%Q.

(** [sum(l)] on floats: the running total starts at 0 and adds from the left *)
Definition sum (l : list Q) : Q := fold_left Qplus l 0%Q.

(** [a / b] on floats *)
Definition div (a b : Q) : Result Q :=
  if Qeq_bool b 0 then Raise ZeroDivisionError else Ok (a / b)%Q.

Definition nl : string := String "010" EmptyString.

(** [s.split()]: the maximal runs of characters that are not whitespace.
    [split_go s] gives the word that starts at the front of [s] (empty when [s]
    is empty or starts with whitespace) and the words after it. *)
Definition cons_word (w : string) (ws : list string) : list string :=
  match w with
  | EmptyString => ws
  | String _ _ => w :: ws
  end.

Fixpoint split_go (s : string) : string * list string :=
  match s with
  | EmptyString => (EmptyString, [])
  | String c r =>
      let '(w, ws) := split_go r in
      if isspace c then (EmptyString, cons_word w ws) else (String c w, ws)
  end.

Definition split (s : string) : list string :=
  let '(w, ws) := split_go s in cons_word w ws.

(** [re.sub(r'\s+', ' ', s)]: every maximal run of whitespace becomes one
    space.  [in_run] tells that the previous character was whitespace. *)
Fixpoint sub_ws_go (in_run : bool) (s : string) : string :=
  match s with
  | EmptyString => EmptyString
  | String c r =>
      if isspace c
      then if in_run then sub_ws_go true r else String " " (sub_ws_go true r)
      else String c (sub_ws_go false r)
  end.

Definition sub_ws (s : string) : string := sub_ws_go false s.

End Py.

Export Py.

(** ** Documents *)

(** Scalar values found in document and vector metadata. *)
Inductive Scalar : Type :=
| SStr (s : string)
| SNum (q : Q)
| SBool (b : bool).

Definition Metadata : Type := list (string * Scalar).

(** [langchain.schema.Document] *)
Record Document : Type := mkDocument {
  page_content : string;
  metadata : Metadata
}.

(** ** [SustainableTravelRAGService] (services/rasa/services/langchain_service.py) *)

Module SustainableTravelRAGService.

(** The dictionary returned by the conversational retrieval chain.  Both keys
    are read with [dict.get] and a default, so either may be absent. *)
Record ChainResult : Type := mkChainResult {
  res_answer : option string;
  res_source_documents : option (list Document)
}.

Inductive Role : Type := Human | AI.

Record Message : Type := mkMessage {
  role : Role;
  content : string
}.

(** The chain is a collaborator: given the question and the messages held by
    the memory it answers or raises, and leaves the memory with new messages. *)
Definition Chain : Type :=
  string -> list Message -> Result ChainResult * list Message.

(** [self.qa_chain] is [None] until [_init_qa_chain] has both a vector store
    and a model.  [messages] is [self.memory.chat_memory.messages]. *)
Record Service : Type := mkService {
  qa_chain : option Chain;
  messages : list Message
}.

Record UserContext : Type := mkUserContext {
  destination : option string;
  budget : option string;
  duration : option string;
  interests : option (list string)
}.

Record Answer : Type := mkAnswer {
  answer : string;
  sources : list Metadata;
  confidence : Q;
  chat_history : option (list Message)
}.

(** [user_context.get(key)] is truthy: the key is present with a non-empty
    string. *)
Definition get_truthy (field : option string) : option string :=
  match field with
  | Some s => if truthy s then Some s else None
  | None => None
  end.

Definition _enhance_question (question : string) (user_context : option UserContext)
  : string :=
  match user_context with
  | None => question
  | Some uc =>
      let part1 := match get_truthy (destination uc) with
                   | Some d => ["traveling to " +:+ d]
                   | None => []
                   end in
      let part2 := match get_truthy (budget uc) with
                   | Some b => ["with a budget of " +:+ b]
                   | None => []
                   end in
      let part3 := match get_truthy (duration uc) with
                   | Some d => ["for " +:+ d]
                   | None => []
                   end in
      let part4 := match interests uc with
                   | Some (i :: rest) => ["interested in " +:+ join ", " (i :: rest)]
                   | _ => []
                   end in
      let context_parts := (part1 ++ part2 ++ part3 ++ part4)%list in
      match context_parts with
      | [] => question
      | _ => question +:+ " (Context: I am " +:+ join ", " context_parts +:+ ")"
      end
  end.

(** [float(n)] for a length [n]; a list is shorter than 2^63. *)
Definition float_of_len (n : nat) : float :=
  PrimFloat.of_uint63 (Uint63.of_Z (Z.of_nat n)).

(** The binary float that line 336 computes:
    [min(0.9, 0.5 + (num_sources * 0.1) + (min(answer_length, 500) / 1000))]. *)
#[warnings="-inexact-float"]
Definition confidence_float (num_sources answer_length : nat) : float :=
  let c := (0.5 + (float_of_len num_sources * 0.1)
            + (float_of_len (Nat.min answer_length 500) / 1000))%float in
  if PrimFloat.ltb c 0.9%float then c else 0.9%float.

Definition _calculate_confidence (result : ChainResult) : Q :=
  let source_docs := default [] (res_source_documents result) in
  match source_docs with
  | [] => 0.3%Q
  | _ =>
      let num_sources := length source_docs in
      let answer_length := String.length (default "" (res_answer result)) in
      let confidence :=
        Qmin 0.9 (0.5 + (inject_Z (Z.of_nat num_sources) * 0.1)
                  + (inject_Z (Z.of_nat (Nat.min answer_length 500)) / 1000))%Q in
      round2 (confidence_float num_sources answer_length) confidence
  end.

Definition unavailable_text : string :=
  "I'm sorry, but my knowledge base is not available right now. However, I can provide basic sustainable travel advice based on general principles.".

Definition error_text : string :=
  "I encountered an error while processing your question. Please try rephrasing it.".

Definition get_travel_advice (self : Service) (question : string)
  (user_context : option UserContext) : Result Answer * Service :=
  match qa_chain self with
  | None =>
      (Ok {| answer := unavailable_text; sources := []; confidence := 0.5%Q;
             chat_history := None |}, self)
  | Some chain =>
      let enhanced_question := _enhance_question question user_context in
      let '(outcome, msgs) := chain enhanced_question (messages self) in
      let self' := {| qa_chain := qa_chain self; messages := msgs |} in
      (try_except
         (bind outcome (fun result =>
            Ok {| answer := default "" (res_answer result);
                  sources := map metadata (default [] (res_source_documents result));
                  confidence := _calculate_confidence result;
                  chat_history := Some (last_n 10 msgs) |}))
         (fun _ => Ok {| answer := error_text; sources := []; confidence := 0.0%Q;
                         chat_history := None |}),
       self')
  end.

(** [self.memory.clear()] *)
Definition clear_conversation_memory (self : Service) : Service :=
  {| qa_chain := qa_chain self; messages := [] |}.

End SustainableTravelRAGService.

(** ** [SimpleSustainableTravelRAG] (langchain_service/langchain_pipeline.py) *)

Module SimpleSustainableTravelRAG.

(** The FAISS store is a collaborator: [similarity_search(question, k)]. *)
Record VectorStore : Type := mkVectorStore {
  similarity_search : string -> nat -> Result (list Document)
}.

(** [self.vectorstore] stays [None] when initialisation failed. *)
Record Service : Type := mkService {
  vectorstore : option VectorStore
}.

Record Answer : Type := mkAnswer {
  answer : string;
  sources : list Metadata;
  confidence : Q
}.

Definition costa_rica_text : string :=
  "Costa Rica is an excellent choice for sustainable travel! It runs on 99% renewable energy and has 25% of its land protected as national parks. Stay in eco-lodges, use public transport, and participate in conservation tours.".
Definition iceland_text : string :=
  "Iceland is perfect for eco-conscious travelers! The country operates on 100% renewable energy from geothermal sources. Follow the Icelandic Pledge, stay on marked trails, and use geothermal facilities.".
Definition transport_text : string :=
  "For sustainable transportation: trains reduce emissions by 75% compared to flying. Choose direct flights when flying is necessary, use public transport at your destination, and consider electric vehicle rentals. For trips under 1000km, ground transport is more sustainable.".
Definition accommodation_text : string :=
  "Choose sustainable accommodations with eco-certifications like Green Key or LEED. Look for properties with renewable energy, water conservation, waste reduction, and local sourcing. Eco-lodges, farm stays, and sustainable hostels are great options.".
Definition budget_text : string :=
  "Budget sustainable travel tips: travel during shoulder seasons for 30-50% savings, use public transportation, stay in eco-hostels, eat at local restaurants, and choose free outdoor activities like hiking.".
Definition carbon_text : string :=
  "Transportation emissions by mode per km: flights 255g CO2, cars 120g CO2, trains 35g CO2, buses 25g CO2. Reduce your footprint by choosing direct flights, packing light, staying longer in destinations, and offsetting through verified programs.".

Definition default_from_context (context : string) : string :=
  if (200 <? String.length context)%nat
  then "Based on sustainable travel best practices: " +:+ prefix_upto 200 context +:+ "..."
  else context.

Definition _generate_response (question context : string) : string :=
  let question_lower := lower question in
  if contains "destination" question_lower || contains "where" question_lower then
    if contains "costa rica" (lower context) then costa_rica_text
    else if contains "iceland" (lower context) then iceland_text
    else default_from_context context
  else if any_in ["transport"; "flight"; "train"] question_lower then transport_text
  else if any_in ["accommodation"; "hotel"; "stay"] question_lower then accommodation_text
  else if any_in ["budget"; "cheap"; "affordable"] question_lower then budget_text
  else if any_in ["carbon"; "footprint"; "emissions"] question_lower then carbon_text
  else default_from_context context.

Definition fallback_destination : string :=
  "Top sustainable destinations include Costa Rica (renewable energy leader), Iceland (geothermal power), New Zealand (conservation focus), and countries with strong environmental policies.".
Definition fallback_transport : string :=
  "For sustainable transport: trains reduce emissions by 75% vs flights, choose direct flights, use public transport, walk/cycle locally, and consider electric rentals.".
Definition fallback_accommodation : string :=
  "Choose eco-certified accommodations with Green Key or LEED certification, renewable energy, water conservation, and local sourcing.".
Definition fallback_general : string :=
  "For sustainable travel: minimize flights, use public transport, support local businesses, choose eco-certified accommodations, pack light, and respect environments.".

Definition _fallback_response (question : string) : Answer :=
  let question_lower := lower question in
  let response :=
    if any_in ["destination"; "where"; "place"] question_lower then fallback_destination
    else if any_in ["transport"; "flight"; "travel"] question_lower then fallback_transport
    else if any_in ["accommodation"; "hotel"] question_lower then fallback_accommodation
    else fallback_general in
  {| answer := response; sources := []; confidence := 0.5%Q |}.

Definition get_travel_advice (self : Service) (question : string) : Result Answer :=
  try_except
    match vectorstore self with
    | None => Ok (_fallback_response question)
    | Some vs =>
        bind (similarity_search vs question 3) (fun docs =>
          match docs with
          | [] => Ok (_fallback_response question)
          | _ =>
              let context := join nl (map page_content docs) in
              let response := _generate_response question context in
              Ok {| answer := response;
                    sources := map metadata docs;
                    confidence := if (2 <=? length docs)%nat then 0.8%Q else 0.6%Q |}
          end)
    end
    (fun _ => Ok (_fallback_response question)).

(** The module-level function [get_langchain_response(query)], on the service
    instance [self]; the dictionary always has the key [answer]. *)
Definition get_langchain_response (self : Service) (query : string) : Result string :=
  bind (get_travel_advice self query) (fun result => Ok (answer result)).

End SimpleSustainableTravelRAG.

(** ** Conversation turns

    The memory classes come from the langchain library.  The repository reads a
    memory in one place only, [get_travel_advice] of the full service, as the
    list [memory.chat_memory.messages]. *)

Module ConversationMemory.

Inductive Role : Type := user | assistant.

Record ConversationTurn : Type := mkTurn {
  role : Role;
  text : string
}.

End ConversationMemory.

(** ** [RAGProcessor] (rag_system/rag_pipeline.py) *)

Module RAGProcessor.

(** Collaborators of the pipeline. *)
Record Env : Type := mkEnv {
  (** [retriever.get_relevant_documents(question)] *)
  get_relevant_documents : string -> Result (list Document);
  (** [llm_pipeline(prompt)[0]["generated_text"]] *)
  llm_pipeline : string -> Result string;
  (** [llm_pipeline(prompt, stream=True)]: the chunks produced, and the
      exception that ends the stream early, if any *)
  llm_pipeline_stream : string -> list string * option Exn;
  (** [len(tokenizer.encode(text))] *)
  encode_len : string -> nat;
  (** the value of the [n]-th call to [time.time()] *)
  clock : nat -> Q
}.

(** Calls made to the retriever and to the model, oldest first. *)
Inductive Call : Type :=
| Retrieve (question : string)
| Generate (prompt : string)
| GenerateStream (prompt : string).

(** [cache] is the [InMemoryCache] read through [lookup], [update] and
    [store]; [memory] is the [ConversationBufferMemory]. *)
Record State : Type := mkState {
  cache : gmap string string;
  memory : list ConversationMemory.ConversationTurn;
  token_usage : nat;
  response_times : list Q;
  calls : list Call;
  ticks : nat
}.

(** [__init__] *)
Definition init : State :=
  {| cache := ∅; memory := []; token_usage := 0; response_times := [];
     calls := []; ticks := 0 |}.

Definition set_cache (self : State) (c : gmap string string) : State :=
  {| cache := c; memory := memory self; token_usage := token_usage self;
     response_times := response_times self; calls := calls self;
     ticks := ticks self |}.

Definition log_call (self : State) (c : Call) : State :=
  {| cache := cache self; memory := memory self; token_usage := token_usage self;
     response_times := response_times self; calls := calls self ++ [c];
     ticks := ticks self |}.

(** [time.time()] *)
Definition time (E : Env) (self : State) : Q * State :=
  (clock E (ticks self),
   {| cache := cache self; memory := memory self; token_usage := token_usage self;
      response_times := response_times self; calls := calls self;
      ticks := S (ticks self) |}).

Definition prompt_template (context question : string) : string :=
  nl +:+ "You are a sustainable travel assistant. Use the following context to answer the user's question. " +:+ nl
  +:+ "If you don't know, say so honestly. Be concise, factual, and eco-friendly." +:+ nl
  +:+ nl
  +:+ "Context:" +:+ nl
  +:+ context +:+ nl
  +:+ nl
  +:+ "Question:" +:+ nl
  +:+ question +:+ nl
  +:+ nl
  +:+ "Eco-Travel Answer:" +:+ nl.

Definition _filter_response (response : string) : string := strip response.

Definition _fact_check (response context : string) : bool := true.

Definition _cache_get (self : State) (query : string) : option string :=
  cache self !! query.

Definition _cache_set (self : State) (query response : string) : State :=
  set_cache self (<[query := response]> (cache self)).

Definition _track_performance (E : Env) (self : State) (start_time : Q)
  (tokens : nat) : State :=
  let '(now, self1) := time E self in
  let elapsed := (now - start_time)%Q in
  {| cache := cache self1; memory := memory self1;
     token_usage := token_usage self1 + tokens;
     response_times := response_times self1 ++ [elapsed];
     calls := calls self1; ticks := ticks self1 |}.

(** The dictionary [ask] returns.  A cache hit carries only [answer] and
    [cached]. *)
Record Reply : Type := mkReply {
  answer : string;
  source_documents : option (list Metadata);
  tokens : option nat;
  response_time : option Q;
  cached : bool
}.

(** [ask] has a [yield] in its body, so it is a generator function whatever
    [stream] is: the body runs when the generator is driven.  A [Run] is the
    generator driven to its end: the chunks it yielded, and how it ended, by
    [return] (a value, or [None]) or by an exception. *)
Record Run : Type := mkRun {
  yielded : list string;
  returned : Result (option Reply)
}.

Definition fact_check_failed : string :=
  "[Fact-check failed: Please verify this information.]".

Definition is_hit (cached : option string) : option string :=
  match cached with
  | Some c => if truthy c then Some c else None
  | None => None
  end.

Definition ask (E : Env) (self : State) (question : string) (stream : bool)
  : Run * State :=
  match is_hit (_cache_get self question) with
  | Some c =>
      ({| yielded := [];
          returned := Ok (Some {| answer := c; source_documents := None;
                                  tokens := None; response_time := None;
                                  cached := true |}) |}, self)
  | None =>
      let self1 := log_call self (Retrieve question) in
      match get_relevant_documents E question with
      | Raise e => ({| yielded := []; returned := Raise e |}, self1)
      | Ok docs =>
          let context := join nl (map page_content docs) in
          let prompt := prompt_template context question in
          let '(start_time, self2) := time E self1 in
          if stream then
            let self3 := log_call self2 (GenerateStream prompt) in
            match llm_pipeline_stream E prompt with
            | (chunks, Some e) => ({| yielded := chunks; returned := Raise e |}, self3)
            | (chunks, None) =>
                let tokens := encode_len E prompt in
                ({| yielded := chunks; returned := Ok None |}, self3)
            end
          else
            let self3 := log_call self2 (Generate prompt) in
            match llm_pipeline E prompt with
            | Raise e => ({| yielded := []; returned := Raise e |}, self3)
            | Ok generated =>
                let tokens := encode_len E (prompt +:+ generated) in
                let answer1 := _filter_response generated in
                let answer2 := if _fact_check answer1 context then answer1
                               else fact_check_failed in
                let self4 := _cache_set self3 question answer2 in
                let self5 := _track_performance E self4 start_time tokens in
                ({| yielded := [];
                    returned :=
                      Ok (Some {| answer := answer2;
                                  source_documents := Some (map metadata docs);
                                  tokens := Some tokens;
                                  response_time := last (response_times self5);
                                  cached := false |}) |}, self5)
            end
      end
  end.

Record Stats : Type := mkStats {
  total_tokens : nat;
  avg_response_time : Q;
  cache_size : nat
}.

Definition get_stats (self : State) : Result Stats :=
  bind (match response_times self with
        | [] => Ok 0%Q
        | _ => div (sum (response_times self))
                   (inject_Z (Z.of_nat (length (response_times self))))
        end)
       (fun avg => Ok {| total_tokens := token_usage self;
                         avg_response_time := avg;
                         cache_size := size (cache self) |}).

End RAGProcessor.

(** ** [PineconeManager] (rag_system/vector_store.py) *)

Module PineconeManager.

(** One entry of the [vectors] argument of [upsert_vectors]. *)
Record Vector : Type := mkVector {
  id : string;
  embedding : list Q;
  v_metadata : Metadata
}.

Definition Triple : Type := (string * list Q * Metadata)%type.

(** One element of [results.matches]. *)
Record Match : Type := mkMatch {
  m_id : string;
  m_score : Q;
  m_metadata : Metadata
}.

Record QueryKwargs : Type := mkQueryKwargs {
  kw_vector : list Q;
  kw_top_k : Z;
  kw_include_metadata : bool;
  kw_filter : option Metadata
}.

(** The remote index; [self.index] is connected on first use, and the model
    starts from the connected index.  [outcomes] scripts the upcoming calls of
    [index.upsert]: [false] makes the call raise, [true] (or an exhausted
    script) makes it succeed.  [attempts] lists every batch submitted and
    [committed] every batch the remote accepted, oldest first.  [respond] is
    the answer of [index.query]. *)
Record Index : Type := mkIndex {
  outcomes : list bool;
  attempts : list (list Triple);
  committed : list (list Triple);
  respond : QueryKwargs -> Result (list Match)
}.

(** [self.index.upsert(vectors=batch)] *)
Definition index_upsert (idx : Index) (batch : list Triple) : Result unit * Index :=
  match outcomes idx with
  | false :: rest =>
      (Raise (ExternalError "upsert failed"),
       {| outcomes := rest; attempts := attempts idx ++ [batch];
          committed := committed idx; respond := respond idx |})
  | _ =>
      (Ok tt,
       {| outcomes := tail (outcomes idx); attempts := attempts idx ++ [batch];
          committed := committed idx ++ [batch]; respond := respond idx |})
  end.

(** [list(zip(ids, embeds, meta))] *)
Definition to_upsert (batch : list Vector) : list Triple :=
  map (fun v => (id v, embedding v, v_metadata v)) batch.

(** The body of the [for] loop, over the start indices still to visit. *)
Fixpoint upsert_loop (starts : list nat) (vectors : list Vector) (batch_size : nat)
  (idx : Index) : Result unit * Index :=
  match starts with
  | [] => (Ok tt, idx)
  | i :: rest =>
      let batch := slice i (i + batch_size) vectors in
      match index_upsert idx (to_upsert batch) with
      | (Ok _, idx') => upsert_loop rest vectors batch_size idx'
      | (Raise e, idx') => (Raise e, idx')
      end
  end.

(** [range(0, len(vectors), batch_size)] raises on a zero step and is empty on
    a negative one. *)
Definition upsert_vectors (idx : Index) (vectors : list Vector) (batch_size : Z)
  : Result unit * Index :=
  if (batch_size =? 0)%Z then
    (Raise (ValueError "range() arg 3 must not be zero"), idx)
  else if (batch_size <? 0)%Z then (Ok tt, idx)
  else
    let n := Z.to_nat batch_size in
    upsert_loop (range_step (length vectors) n) vectors n idx.

Record QueryResult : Type := mkQueryResult {
  r_id : string;
  r_score : Q;
  r_metadata : Metadata
}.

(** [matches.sort(key=lambda x: x.score, reverse=True)]: a stable sort, so
    matches with equal scores keep their order.  [insert_desc x l] puts [x] in
    front of the first element whose score is not greater than its own. *)
Fixpoint insert_desc (x : Match) (l : list Match) : list Match :=
  match l with
  | [] => [x]
  | y :: r => if Qle_bool (m_score y) (m_score x) then x :: y :: r
              else y :: insert_desc x r
  end.

Fixpoint sort_desc (l : list Match) : list Match :=
  match l with
  | [] => []
  | x :: r => insert_desc x (sort_desc r)
  end.

Definition result_of (m : Match) : QueryResult :=
  {| r_id := m_id m; r_score := m_score m; r_metadata := m_metadata m |}.

(** The [query_kwargs] dictionary; [filter] is set when [filters] is a
    non-empty dictionary. *)
Definition query_kwargs (query_vector : list Q) (top_k : Z)
  (filters : option Metadata) : QueryKwargs :=
  {| kw_vector := query_vector; kw_top_k := top_k; kw_include_metadata := true;
     kw_filter := match filters with
                  | Some (f :: fs) => Some (f :: fs)
                  | _ => None
                  end |}.

Definition query (idx : Index) (query_vector : list Q) (top_k : Z)
  (filters : option Metadata) (similarity_threshold : Q)
  : Result (list QueryResult) :=
  bind (respond idx (query_kwargs query_vector top_k filters)) (fun results =>
    let matches :=
      filter (fun m => Qle_bool similarity_threshold (m_score m) = true) results in
    let matches := sort_desc matches in
    Ok (map result_of matches)).

(** The indexes of the Pinecone account, by name, each with its dimension and
    metric: [pinecone.list_indexes()] gives the names and
    [pinecone.create_index] adds one. *)
Record Manager : Type := mkManager {
  index_name : string;
  dimension : Z;
  connected : option string
}.

Definition create_index (self : Manager) (metric : string)
  (account : gmap string (Z * string)) : Manager * gmap string (Z * string) :=
  let account' :=
    match account !! index_name self with
    | None => <[index_name self := (dimension self, metric)]> account
    | Some _ => account
    end in
  ({| index_name := index_name self; dimension := dimension self;
      connected := Some (index_name self) |}, account').

End PineconeManager.

(** ** [KnowledgeBaseBuilder] (rag_system/knowledge_base_builder.py) *)

Module KnowledgeBaseBuilder.

(** The value [json.loads] gives for one line of the knowledge base file.  An
    object lists its members with distinct keys. *)
#[warnings="-register-all"]
Inductive JSON : Type :=
| JNull
| JBool (b : bool)
| JNum (q : Q)
| JStr (s : string)
| JArr (items : list JSON)
| JObj (members : list (string * JSON)).

Fixpoint lookup_member (key : string) (members : list (string * JSON))
  : option JSON :=
  match members with
  | [] => None
  | (k, v) :: rest => if String.eqb k key then Some v else lookup_member key rest
  end.

Definition is_str (key : string) (j : JSON) : bool :=
  match j with
  | JStr s => String.eqb s key
  | _ => false
  end.

(** [key in j] for a string [key] *)
Definition py_in (key : string) (j : JSON) : Result bool :=
  match j with
  | JObj members => Ok (bool_decide (is_Some (lookup_member key members)))
  | JArr items => Ok (existsb (is_str key) items)
  | JStr s => Ok (contains key s)
  | _ => Raise (TypeError "argument is not iterable")
  end.

(** [j[key]] for a string [key] *)
Definition py_getitem (j : JSON) (key : string) : Result JSON :=
  match j with
  | JObj members =>
      match lookup_member key members with
      | Some v => Ok v
      | None => Raise (KeyError key)
      end
  | _ => Raise (TypeError "indices must be integers")
  end.

(** [bool(j)] *)
Definition json_truthy (j : JSON) : bool :=
  match j with
  | JNull => false
  | JBool b => b
  | JNum q => negb (Qeq_bool q 0)
  | JStr s => truthy s
  | JArr items => match items with [] => false | _ => true end
  | JObj members => match members with [] => false | _ => true end
  end.

(** [assert cond, msg] *)
Definition assert (cond : Result bool) (msg : string) : Result unit :=
  bind cond (fun b => if b then Ok tt else Raise (AssertionError msg)).

Definition show (i : nat) : string := pretty i.

(** The checks made on the [i]-th line. *)
Definition validate_doc (i : nat) (doc : JSON) : Result unit :=
  bind (assert (bind (py_in "text" doc) (fun present =>
                  if present
                  then bind (py_getitem doc "text") (fun t => Ok (json_truthy t))
                  else Ok false))
               ("Missing text in doc " +:+ show i)) (fun _ =>
  bind (assert (py_in "metadata" doc) ("Missing metadata in doc " +:+ show i)) (fun _ =>
  bind (py_getitem doc "metadata") (fun meta =>
  bind (assert (py_in "location" meta) ("Missing location in metadata " +:+ show i)) (fun _ =>
  bind (assert (py_in "category" meta) ("Missing category in metadata " +:+ show i)) (fun _ =>
  assert (py_in "sustainability_score" meta)
         ("Missing sustainability_score in metadata " +:+ show i)))))).

(** [for i, line in enumerate(f)], from index [i] on *)
Fixpoint validate_from (i : nat) (docs : list JSON) : Result unit :=
  match docs with
  | [] => Ok tt
  | doc :: rest => bind (validate_doc i doc) (fun _ => validate_from (S i) rest)
  end.

Definition validate_data (docs : list JSON) : Result unit := validate_from 0 docs.

(** [isinstance(j, list)] *)
Definition is_list (j : JSON) : bool :=
  match j with
  | JArr _ => true
  | _ => false
  end.

Definition validate_embedding_doc (i : nat) (doc : JSON) : Result unit :=
  bind (assert (py_in "embedding" doc) ("Missing embedding in doc " +:+ show i)) (fun _ =>
  assert (bind (py_getitem doc "embedding") (fun e => Ok (is_list e)))
         ("Embedding is not a list in doc " +:+ show i)).

Fixpoint validate_embeddings_from (i : nat) (docs : list JSON) : Result unit :=
  match docs with
  | [] => Ok tt
  | doc :: rest =>
      bind (validate_embedding_doc i doc) (fun _ => validate_embeddings_from (S i) rest)
  end.

Definition validate_embeddings (docs : list JSON) : Result unit :=
  validate_embeddings_from 0 docs.

End KnowledgeBaseBuilder.

(** ** [DataProcessor] (rag_system/data_processor.py) *)

Module DataProcessor.

Definition CHUNK_SIZE : nat := 512.

(** One entry of [self.documents], as [scrape] appends it. *)
Record Scraped : Type := mkScraped {
  text : string;
  source : string
}.

Definition clean_text (text : string) : string :=
  let text := sub_ws text in
  strip text.

Definition chunk_text (text : string) : list string :=
  let words := split text in
  map (fun i => join " " (slice i (i + CHUNK_SIZE) words))
      (range_step (length words) CHUNK_SIZE).

Record DocMetadata : Type := mkDocMetadata {
  location : string;
  category : string;
  sustainability_score : Z
}.

Definition extract_metadata (doc : Scraped) : DocMetadata :=
  {| location := "Unknown";
     category := if contains "hotel" (lower (text doc)) then "eco_hotel" else "other";
     sustainability_score := 80 |}.

(** One dictionary of the list [process] returns. *)
Record Processed : Type := mkProcessed {
  p_text : string;
  p_metadata : DocMetadata;
  p_source : string
}.

Definition process (documents : list Scraped) : list Processed :=
  flat_map (fun doc =>
              let clean := clean_text (text doc) in
              let chunks := chunk_text clean in
              let meta := extract_metadata doc in
              map (fun chunk => {| p_text := chunk; p_metadata := meta;
                                   p_source := source doc |}) chunks)
           documents.

(** The line [save] writes for a record, as [json.loads] reads it back. *)
Definition to_json (p : Processed) : KnowledgeBaseBuilder.JSON :=
  KnowledgeBaseBuilder.JObj
    [ ("text", KnowledgeBaseBuilder.JStr (p_text p));
      ("metadata",
       KnowledgeBaseBuilder.JObj
         [ ("location", KnowledgeBaseBuilder.JStr (location (p_metadata p)));
           ("category", KnowledgeBaseBuilder.JStr (category (p_metadata p)));
           ("sustainability_score",
            KnowledgeBaseBuilder.JNum (inject_Z (sustainability_score (p_metadata p)))) ]);
      ("source", KnowledgeBaseBuilder.JStr (p_source p)) ].

End DataProcessor.

(** ** [EmbeddingsGenerator] (rag_system/embeddings_generator.py) *)

Module EmbeddingsGenerator.

(** [doc[key] = value] on a dictionary: the member is replaced where it stands,
    or added at the end. *)
Fixpoint set_member (key : string) (value : KnowledgeBaseBuilder.JSON)
  (members : list (string * KnowledgeBaseBuilder.JSON))
  : list (string * KnowledgeBaseBuilder.JSON) :=
  match members with
  | [] => [(key, value)]
  | (k, v) :: rest =>
      if String.eqb k key then (k, value) :: rest
      else (k, v) :: set_member key value rest
  end.

Definition py_setitem (doc : KnowledgeBaseBuilder.JSON) (key : string)
  (value : KnowledgeBaseBuilder.JSON) : Result KnowledgeBaseBuilder.JSON :=
  match doc with
  | KnowledgeBaseBuilder.JObj members =>
      Ok (KnowledgeBaseBuilder.JObj (set_member key value members))
  | _ => Raise (TypeError "object does not support item assignment")
  end.

(** [[doc['text'] for doc in docs]] *)
Fixpoint texts_of (docs : list KnowledgeBaseBuilder.JSON)
  : Result (list KnowledgeBaseBuilder.JSON) :=
  match docs with
  | [] => Ok []
  | doc :: rest =>
      bind (KnowledgeBaseBuilder.py_getitem doc "text") (fun t =>
      bind (texts_of rest) (fun ts => Ok (t :: ts)))
  end.

(** [embeddings[i].tolist()]; the array raises when [i] is out of range. *)
Definition embedding_at (embeddings : list (list Q)) (i : nat)
  : Result KnowledgeBaseBuilder.JSON :=
  match embeddings !! i with
  | Some v => Ok (KnowledgeBaseBuilder.JArr (map KnowledgeBaseBuilder.JNum v))
  | None => Raise (ExternalError "index out of bounds")
  end.

(** [for i, doc in enumerate(docs): doc['embedding'] = ...], from index [i] on *)
Fixpoint attach_from (i : nat) (embeddings : list (list Q))
  (docs : list KnowledgeBaseBuilder.JSON) : Result (list KnowledgeBaseBuilder.JSON) :=
  match docs with
  | [] => Ok []
  | doc :: rest =>
      bind (embedding_at embeddings i) (fun e =>
      bind (py_setitem doc "embedding" e) (fun doc' =>
      bind (attach_from (S i) embeddings rest) (fun rest' => Ok (doc' :: rest'))))
  end.

(** [encode] is [self.model.encode]: the texts go in, one vector per text is
    expected back. *)
Definition generate_embeddings
  (encode : list KnowledgeBaseBuilder.JSON -> list (list Q))
  (docs : list KnowledgeBaseBuilder.JSON) : Result (list KnowledgeBaseBuilder.JSON) :=
  bind (texts_of docs) (fun texts =>
  let embeddings := encode texts in
  attach_from 0 embeddings docs).

End EmbeddingsGenerator.

(** ** [KnowledgeBaseBuilder.build]

    [scraped] is what [processor.scrape()] has collected; the two files hold the
    lines written by [save] and [save_embeddings], read back by [json.loads]. *)

Module Build.

Definition build (scraped : list DataProcessor.Scraped)
  (encode : list KnowledgeBaseBuilder.JSON -> list (list Q))
  : Result (list KnowledgeBaseBuilder.JSON) :=
  let processed := DataProcessor.process scraped in
  let kb_file := map DataProcessor.to_json processed in
  bind (KnowledgeBaseBuilder.validate_data kb_file) (fun _ =>
  let docs := kb_file in
  bind (EmbeddingsGenerator.generate_embeddings encode docs) (fun docs_with_emb =>
  let emb_file := docs_with_emb in
  bind (KnowledgeBaseBuilder.validate_embeddings emb_file) (fun _ =>
  Ok emb_file))).

End Build.

(** * Properties *)

(** ** Confidence scoring *)

(** The confidence formula as the specification words it. *)
Definition spec_confidence (sourceCount answerLength : nat) : Q :=
  match sourceCount with
  | O => 0.3%Q
  | _ => Qmin 0.9 (0.5 + 0.1 * inject_Z (Z.of_nat (Nat.min sourceCount 4))
                   + inject_Z (Z.of_nat (Nat.min answerLength 500)) / 1000)%Q
  end.

(** The number of hundredths [round2] picks. *)
Definition hundredths (x : float) (q : Q) : Z :=
  let s := (q * 100)%Q in
  let f := Qfloor s in
  match (s - inject_Z f ?= 1 # 2)%Q with
  | Lt => f
  | Gt => (f + 1)%Z
  | Eq => match (exact x ?= q)%Q with
          | Lt => f
          | Gt => (f + 1)%Z
          | Eq => if Z.even f then f else (f + 1)%Z
          end
  end.

Lemma round2_hundredths (x : float) (q : Q) :
  round2 x q = (inject_Z (hundredths x q) / 100)%Q.
Proof. reflexivity. Qed.

Lemma Qdiv_100 (q : Q) : (q / 100 == q * (1 # 100))%Q.
Proof. unfold Qdiv. apply Qmult_comp; reflexivity. Qed.

Lemma hundredths_bounds (x : float) (q : Q) :
  (Qfloor (q * 100) <= hundredths x q <= Qfloor (q * 100) + 1)%Z.
Proof.
  unfold hundredths. cbn zeta.
  repeat match goal with
         | |- context [match ?c with _ => _ end] => destruct c
         end; lia.
Qed.

(** A whole number of hundredths is left as it is, whatever the float. *)
Lemma hundredths_at (x : float) (q : Q) (k : Z) :
  (q == inject_Z k / 100)%Q -> hundredths x q = k.
Proof.
  intros Hq.
  assert (Hs : (q * 100 == inject_Z k)%Q) by (rewrite Hq; field).
  unfold hundredths. cbn zeta. rewrite (Qfloor_comp _ _ Hs), Qfloor_Z.
  assert (Hr : (q * 100 - inject_Z k == 0)%Q) by (rewrite Hs; ring).
  rewrite (Qcompare_comp _ _ Hr (1 # 2) (1 # 2) (Qeq_refl _)). reflexivity.
Qed.

Lemma hundredths_lower (x : float) (q : Q) (k : Z) :
  (inject_Z k / 100 <= q)%Q -> (k <= hundredths x q)%Z.
Proof.
  intros Hk. rewrite Qdiv_100 in Hk.
  assert (Hs : (inject_Z k <= q * 100)%Q) by lra.
  apply Qfloor_resp_le in Hs. rewrite Qfloor_Z in Hs.
  pose proof (hundredths_bounds x q). lia.
Qed.

Lemma hundredths_upper (x : float) (q : Q) (k : Z) :
  (q <= inject_Z k / 100)%Q -> (hundredths x q <= k)%Z.
Proof.
  intros Hk.
  destruct (Qeq_dec q (inject_Z k / 100)) as [Heq | Hne].
  - rewrite (hundredths_at x q k Heq). lia.
  - assert (Hlt : (q * 100 < inject_Z k)%Q).
    { rewrite Qdiv_100 in Hk, Hne. apply Qnot_le_lt. intros Hge. apply Hne. lra. }
    pose proof (Qfloor_le (q * 100)) as Hfl.
    assert (Hz : (inject_Z (Qfloor (q * 100)) < inject_Z k)%Q) by lra.
    rewrite <- Zlt_Qlt in Hz.
    pose proof (hundredths_bounds x q). lia.
Qed.

(** Of two different real numbers the smaller never rounds above the larger,
    whatever the floats that stand for them. *)
Lemma hundredths_mono_strict (x y : float) (p q : Q) :
  (p < q)%Q -> (hundredths x p <= hundredths y q)%Z.
Proof.
  intros Hpq.
  assert (Hs : (p * 100 < q * 100)%Q) by lra.
  assert (Hf : (Qfloor (p * 100) <= Qfloor (q * 100))%Z)
    by (apply Qfloor_resp_le; lra).
  pose proof (hundredths_bounds x p) as Hp. pose proof (hundredths_bounds y q) as Hq.
  destruct (Z.eq_dec (Qfloor (p * 100)) (Qfloor (q * 100))) as [Heq | Hne]; [| lia].
  clear Hp. unfold hundredths in *. cbn zeta in *. rewrite <- Heq in *.
  set (f := Qfloor (p * 100)) in *.
  destruct (p * 100 - inject_Z f ?= 1 # 2)%Q eqn:Hcp; [| lia |].
  - destruct (q * 100 - inject_Z f ?= 1 # 2)%Q eqn:Hcq.
    + exfalso. apply Qeq_alt in Hcp. apply Qeq_alt in Hcq. lra.
    + exfalso. apply Qeq_alt in Hcp. apply Qlt_alt in Hcq. lra.
    + repeat match goal with
             | |- context [match ?c with _ => _ end] => destruct c
             end; lia.
  - destruct (q * 100 - inject_Z f ?= 1 # 2)%Q eqn:Hcq; [| | lia].
    + exfalso. apply Qgt_alt in Hcp. apply Qeq_alt in Hcq. lra.
    + exfalso. apply Qgt_alt in Hcp. apply Qlt_alt in Hcq. lra.
Qed.

(** The rounded value is within half a hundredth of the real number. *)
Lemma round2_close (x : float) (q : Q) :
  (q - (1 # 200) <= round2 x q <= q + (1 # 200))%Q.
Proof.
  rewrite round2_hundredths, Qdiv_100.
  pose proof (Qfloor_le (q * 100)) as Hlo.
  pose proof (Qlt_floor (q * 100)) as Hhi.
  assert (Hplus : (inject_Z (Qfloor (q * 100) + 1) == inject_Z (Qfloor (q * 100)) + 1)%Q)
    by (rewrite inject_Z_plus; reflexivity).
  unfold hundredths. cbn zeta.
  set (f := Qfloor (q * 100)) in *.
  destruct (q * 100 - inject_Z f ?= 1 # 2)%Q eqn:Hc.
  - apply Qeq_alt in Hc.
    repeat match goal with
           | |- context [match ?c with _ => _ end] => destruct c
           end; try rewrite Hplus; lra.
  - apply Qlt_alt in Hc. lra.
  - apply Qgt_alt in Hc. rewrite Hplus. lra.
Qed.

Lemma round2_comp (x : float) (p q : Q) : (p == q)%Q -> (round2 x p == round2 x q)%Q.
Proof.
  intros Hpq. unfold round2.
  assert (Hs : (p * 100 == q * 100)%Q) by (rewrite Hpq; reflexivity).
  rewrite (Qfloor_comp _ _ Hs).
  assert (Hr : (p * 100 - inject_Z (Qfloor (q * 100))
                == q * 100 - inject_Z (Qfloor (q * 100)))%Q)
    by (rewrite Hs; reflexivity).
  rewrite (Qcompare_comp _ _ Hr (1 # 2) (1 # 2) (Qeq_refl _)).
  rewrite (Qcompare_comp _ _ (Qeq_refl (exact x)) p q Hpq).
  reflexivity.
Qed.

Lemma inject_nat_nonneg (n : nat) : (0 <= inject_Z (Z.of_nat n))%Q.
Proof. change 0%Q with (inject_Z 0). rewrite <- Zle_Qle. lia. Qed.

Lemma inject_nat_le (a b : nat) :
  (a <= b)%nat -> (inject_Z (Z.of_nat a) <= inject_Z (Z.of_nat b))%Q.
Proof. intros H. rewrite <- Zle_Qle. lia. Qed.

Lemma Qdiv_1000 (q : Q) : (q / 1000 == q * (1 # 1000))%Q.
Proof. unfold Qdiv. apply Qmult_comp; reflexivity. Qed.

(** The cap at 0.9 makes the bound [min(sourceCount, 4)] redundant. *)
Lemma cap_absorbs_source_bound (n m : nat) :
  (Qmin 0.9 (0.5 + inject_Z (Z.of_nat n) * 0.1 + inject_Z (Z.of_nat m) / 1000)
   == Qmin 0.9 (0.5 + 0.1 * inject_Z (Z.of_nat (Nat.min n 4))
                + inject_Z (Z.of_nat m) / 1000))%Q.
Proof.
  pose proof (inject_nat_nonneg m) as Hm.
  destruct (Nat.le_gt_cases n 4) as [Hle | Hgt].
  - rewrite (Nat.min_l n 4 Hle).
    apply Q.min_compat; [reflexivity | field].
  - rewrite (Nat.min_r n 4) by lia.
    pose proof (inject_nat_le 5 n Hgt) as Hn.
    change (inject_Z (Z.of_nat 5)) with 5%Q in Hn.
    change (inject_Z (Z.of_nat 4)) with 4%Q.
    rewrite !Q.min_l; [reflexivity | |].
    + rewrite Qdiv_1000. lra.
    + rewrite Qdiv_1000. lra.
Qed.

Definition sources_of (result : SustainableTravelRAGService.ChainResult) : list Document :=
  default [] (SustainableTravelRAGService.res_source_documents result).

Definition answer_of (result : SustainableTravelRAGService.ChainResult) : string :=
  default "" (SustainableTravelRAGService.res_answer result).

(** A chain result with one source document and the three-character answer
    [Yes]. *)
Definition one_source_short_answer : SustainableTravelRAGService.ChainResult :=
  {| SustainableTravelRAGService.res_answer := Some "Yes";
     SustainableTravelRAGService.res_source_documents :=
       Some [ {| page_content := "Iceland runs on renewable energy.";
                 metadata := [("category", SStr "destinations")] |} ] |}.

(** The rounding of the model against Python's own: does rounding the real
    number with the help of the float give what rounding the exact value of the
    float, ties to even, gives? *)
Definition rounds_like_the_float (n m : nat) : bool :=
  let x := SustainableTravelRAGService.confidence_float n m in
  Qeq_bool
    (round2 x (Qmin 0.9 (0.5 + (inject_Z (Z.of_nat n) * 0.1)
                         + (inject_Z (Z.of_nat (Nat.min m 500)) / 1000)))%Q)
    (round2 x (exact x)).

Lemma float_rounding_table :
  forallb (fun n => forallb (rounds_like_the_float n) (seq 0 501)) (seq 1 50) = true.
Proof. vm_compute. reflexivity. Qed.

(** It does, for every answer and up to fifty sources. *)
Lemma float_rounding_agrees (n m : nat) :
  1 <= n <= 50 ->
  let x := SustainableTravelRAGService.confidence_float n m in
  (round2 x (Qmin 0.9 (0.5 + (inject_Z (Z.of_nat n) * 0.1)
                       + (inject_Z (Z.of_nat (Nat.min m 500)) / 1000)))
   == round2 x (exact x))%Q.
Proof.
  intros Hn. cbn zeta.
  assert (H : rounds_like_the_float n (Nat.min m 500) = true).
  { pose proof float_rounding_table as T.
    rewrite List.forallb_forall in T. specialize (T n (proj2 (List.in_seq 50 1 n) ltac:(lia))).
    rewrite List.forallb_forall in T. apply T, List.in_seq. lia. }
  unfold rounds_like_the_float, SustainableTravelRAGService.confidence_float in H.
  rewrite <- Nat.min_assoc, Nat.min_id in H.
  apply Qeq_bool_iff in H. exact H.
Qed.

(** A chain that returns [one_source_short_answer] and leaves the memory as it
    is. *)
Definition short_answer_chain : SustainableTravelRAGService.Chain :=
  fun _ msgs => (Ok one_source_short_answer, msgs).

Definition short_answer_service : SustainableTravelRAGService.Service :=
  {| SustainableTravelRAGService.qa_chain := Some short_answer_chain;
     SustainableTravelRAGService.messages := [] |}.

(** C1, as stated, fails: with one source and a three-character answer the
    formula gives 0.603, and the service returns 0.6, because it rounds the
    value to two decimals. *)
Lemma confidence_formula_counterexample :
  exists a,
    fst (SustainableTravelRAGService.get_travel_advice short_answer_service
           "Is Iceland green?" None) = Ok a
    /\ (SustainableTravelRAGService.confidence a == 0.6)%Q
    /\ ~ (SustainableTravelRAGService.confidence a
          == spec_confidence (length (sources_of one_source_short_answer))
                             (String.length (answer_of one_source_short_answer)))%Q.
Proof.
  eexists. split; [reflexivity |]. split.
  - vm_compute. reflexivity.
  - intros H. vm_compute in H. discriminate H.
Qed.

(** Where the formula's value is exactly halfway, the binary float decides: one
    source and a fifteen-character answer give 0.615, the float sum lies below
    it, and the confidence is 0.61. *)
Lemma confidence_at_a_halfway_value :
  (SustainableTravelRAGService._calculate_confidence
     {| SustainableTravelRAGService.res_answer := Some "Take the train.";
        SustainableTravelRAGService.res_source_documents :=
          SustainableTravelRAGService.res_source_documents one_source_short_answer |}
   == 0.61)%Q.
Proof. vm_compute. reflexivity. Qed.

Lemma calculate_confidence_spec (result : SustainableTravelRAGService.ChainResult) :
  (SustainableTravelRAGService._calculate_confidence result
   == round2 (SustainableTravelRAGService.confidence_float
                (length (sources_of result)) (String.length (answer_of result)))
             (spec_confidence (length (sources_of result))
                              (String.length (answer_of result))))%Q.
Proof.
  destruct result as [ans docs].
  unfold SustainableTravelRAGService._calculate_confidence, sources_of, answer_of.
  cbn [SustainableTravelRAGService.res_source_documents
       SustainableTravelRAGService.res_answer].
  destruct (default [] docs) as [| d ds] eqn:Hdocs.
  - rewrite round2_hundredths, (hundredths_at _ _ 30); reflexivity.
  - apply round2_comp.
    change (spec_confidence (length (d :: ds)) (String.length (default "" ans)))
      with (Qmin 0.9 (0.5 + 0.1 * inject_Z (Z.of_nat (Nat.min (length (d :: ds)) 4))
                      + inject_Z (Z.of_nat (Nat.min (String.length (default "" ans)) 500))
                        / 1000))%Q.
    apply cap_absorbs_source_bound.
Qed.

(** C1, as amended: when the chain answers, the confidence the service returns
    is the specified formula (0.3 with zero sources) rounded to two decimals as
    Python rounds the binary float: a whole number of hundredths within half a
    hundredth of the formula's value, the side of the float deciding where that
    value is exactly halfway.  The simple pipeline, when the store returns
    documents, reports 0.8 for two or more and 0.6 for one. *)
Theorem confidence_is_rounded_formula
  (self : SustainableTravelRAGService.Service)
  (chain : SustainableTravelRAGService.Chain) (question : string)
  (uc : option SustainableTravelRAGService.UserContext)
  (result : SustainableTravelRAGService.ChainResult)
  (msgs : list SustainableTravelRAGService.Message) :
  SustainableTravelRAGService.qa_chain self = Some chain ->
  chain (SustainableTravelRAGService._enhance_question question uc)
        (SustainableTravelRAGService.messages self) = (Ok result, msgs) ->
  let n := length (sources_of result) in
  let len := String.length (answer_of result) in
  (exists a,
      fst (SustainableTravelRAGService.get_travel_advice self question uc) = Ok a
      /\ (SustainableTravelRAGService.confidence a
          == round2 (SustainableTravelRAGService.confidence_float n len)
                    (spec_confidence n len))%Q
      /\ (spec_confidence n len - (1 # 200)
          <= SustainableTravelRAGService.confidence a
          <= spec_confidence n len + (1 # 200))%Q
      /\ (exists k, (SustainableTravelRAGService.confidence a == inject_Z k / 100)%Q))
  /\ (forall (vs : SimpleSustainableTravelRAG.VectorStore) (question : string),
         match SimpleSustainableTravelRAG.similarity_search vs question 3 with
         | Ok (d :: docs) =>
             exists a,
               SimpleSustainableTravelRAG.get_travel_advice
                 {| SimpleSustainableTravelRAG.vectorstore := Some vs |} question = Ok a
               /\ SimpleSustainableTravelRAG.confidence a
                  = (if (2 <=? length (d :: docs))%nat then 0.8%Q else 0.6%Q)
         | _ => True
         end).
Proof.
  intros Hchain Hcall. cbn zeta. split.
  - eexists. split.
    + unfold SustainableTravelRAGService.get_travel_advice.
      rewrite Hchain, Hcall. reflexivity.
    + cbn [SustainableTravelRAGService.confidence].
      pose proof (calculate_confidence_spec result) as Hspec.
      split; [exact Hspec |]. split.
      * rewrite Hspec. apply round2_close.
      * eexists. rewrite Hspec. rewrite round2_hundredths. reflexivity.
  - intros vs question'.
    destruct (SimpleSustainableTravelRAG.similarity_search vs question' 3)
      as [[| d docs] | e] eqn:Hsearch; try exact I.
    eexists. split.
    + unfold SimpleSustainableTravelRAG.get_travel_advice.
      cbn [SimpleSustainableTravelRAG.vectorstore].
      rewrite Hsearch. reflexivity.
    + reflexivity.
Qed.

Lemma confidence_is_rounded_formula_witness :
  exists a,
    fst (SustainableTravelRAGService.get_travel_advice short_answer_service
           "Is Iceland green?" None) = Ok a
    /\ (spec_confidence 1 3 - (1 # 200)
        <= SustainableTravelRAGService.confidence a
        <= spec_confidence 1 3 + (1 # 200))%Q.
Proof.
  destruct (confidence_is_rounded_formula short_answer_service short_answer_chain
              "Is Iceland green?" None one_source_short_answer [] eq_refl eq_refl)
    as [(a & Ha & _ & Hclose & _) _].
  exists a. split; [exact Ha | exact Hclose].
Defined.

(** ** Response cache of [RAGProcessor.ask] *)

(** The normalisation the specification asks for: trim, then case-fold. *)
Definition spec_normalize (question : string) : string := lower (strip question).

(** A small environment to run the pipeline on: one document is retrieved, the
    model answers with surrounding blanks, the stream has two chunks, a token is
    a character, and the clock advances by two seconds per reading. *)
Definition demo_env : RAGProcessor.Env :=
  {| RAGProcessor.get_relevant_documents := fun _ =>
       Ok [ {| page_content := "Trains emit 35g CO2 per km.";
               metadata := [("category", SStr "transportation")] |} ];
     RAGProcessor.llm_pipeline := fun _ => Ok " Take the train: it is the eco choice. ";
     RAGProcessor.llm_pipeline_stream := fun _ => (["Take the "; "train."], None);
     RAGProcessor.encode_len := String.length;
     RAGProcessor.clock := fun n => inject_Z (2 * Z.of_nat n) |}.

Definition hit_reply (c : string) : RAGProcessor.Reply :=
  {| RAGProcessor.answer := c; RAGProcessor.source_documents := None;
     RAGProcessor.tokens := None; RAGProcessor.response_time := None;
     RAGProcessor.cached := true |}.

Lemma is_hit_truthy (c : string) :
  truthy c = true -> RAGProcessor.is_hit (Some c) = Some c.
Proof. intros H. unfold RAGProcessor.is_hit. rewrite H. reflexivity. Qed.

(** A hit leaves the processor as it was and makes no call. *)
Lemma ask_hit (E : RAGProcessor.Env) (s : RAGProcessor.State) (q c : string)
  (stream : bool) :
  RAGProcessor.is_hit (RAGProcessor._cache_get s q) = Some c ->
  RAGProcessor.ask E s q stream
  = ({| RAGProcessor.yielded := []; RAGProcessor.returned := Ok (Some (hit_reply c)) |}, s).
Proof. intros H. unfold RAGProcessor.ask. rewrite H. reflexivity. Qed.

(** A run of requests, each a question and its [stream] flag, every generator
    driven to its end before the next request. *)
Fixpoint run_asks (E : RAGProcessor.Env) (s : RAGProcessor.State)
  (reqs : list (string * bool)) : list RAGProcessor.Run * RAGProcessor.State :=
  match reqs with
  | [] => ([], s)
  | (q, stream) :: rest =>
      let '(r, s1) := RAGProcessor.ask E s q stream in
      let '(rs, s2) := run_asks E s1 rest in
      (r :: rs, s2)
  end.

(** The token count and the response time a run reports in a reply that was
    not served from the cache. *)
Definition tokens_of (r : RAGProcessor.Run) : nat :=
  match RAGProcessor.returned r with
  | Ok (Some rep) =>
      if RAGProcessor.cached rep then 0 else default 0 (RAGProcessor.tokens rep)
  | _ => 0
  end.

Definition times_of (r : RAGProcessor.Run) : list Q :=
  match RAGProcessor.returned r with
  | Ok (Some rep) =>
      if RAGProcessor.cached rep then []
      else match RAGProcessor.response_time rep with
           | Some t => [t]
           | None => []
           end
  | _ => []
  end.

Ltac step_done :=
  repeat split; intros; try reflexivity; try discriminate; try (left; reflexivity).

(** What one request does to the processor, case by case. *)
Lemma ask_step (E : RAGProcessor.Env) (s : RAGProcessor.State) (q : string)
  (stream : bool) :
  let r := fst (RAGProcessor.ask E s q stream) in
  let s' := snd (RAGProcessor.ask E s q stream) in
  RAGProcessor.memory s' = RAGProcessor.memory s
  /\ RAGProcessor.token_usage s' = RAGProcessor.token_usage s + tokens_of r
  /\ RAGProcessor.response_times s' = RAGProcessor.response_times s ++ times_of r
  /\ (RAGProcessor.cache s' = RAGProcessor.cache s
      \/ exists a, times_of r <> []
                   /\ RAGProcessor.is_hit (RAGProcessor._cache_get s q) = None
                   /\ RAGProcessor.cache s' = <[q := a]> (RAGProcessor.cache s))
  /\ (forall e, RAGProcessor.returned r = Raise e ->
                RAGProcessor.cache s' = RAGProcessor.cache s /\ times_of r = []).
Proof.
  cbn zeta. unfold RAGProcessor.ask.
  destruct (RAGProcessor.is_hit (RAGProcessor._cache_get s q)) as [c |] eqn:Hhit.
  { cbn. rewrite Nat.add_0_r, app_nil_r. step_done. }
  destruct (RAGProcessor.get_relevant_documents E q) as [docs | e].
  2:{ cbn. rewrite Nat.add_0_r, app_nil_r. step_done. }
  unfold RAGProcessor.time.
  cbn [RAGProcessor.log_call RAGProcessor.ticks RAGProcessor.cache RAGProcessor.memory
       RAGProcessor.token_usage RAGProcessor.response_times RAGProcessor.calls].
  destruct stream.
  - destruct (RAGProcessor.llm_pipeline_stream E _) as [chunks [e |]];
      cbn; rewrite Nat.add_0_r, app_nil_r; step_done.
  - destruct (RAGProcessor.llm_pipeline E _) as [generated | e].
    2:{ cbn. rewrite Nat.add_0_r, app_nil_r. step_done. }
    unfold tokens_of, times_of.
    cbn [fst snd RAGProcessor.returned RAGProcessor.cached RAGProcessor.tokens
         RAGProcessor.response_time RAGProcessor._track_performance RAGProcessor.time
         RAGProcessor._cache_set RAGProcessor.set_cache
         RAGProcessor.ticks RAGProcessor.cache RAGProcessor.memory
         RAGProcessor.token_usage RAGProcessor.response_times RAGProcessor.calls
         RAGProcessor._fact_check default].
    rewrite last_snoc.
    split; [reflexivity |]. split; [reflexivity |]. split; [reflexivity |].
    split; [| intros e He; discriminate He].
    right. eexists. split; [discriminate |]. split; reflexivity.
Qed.

Lemma ask_keeps_nonempty_entry (E : RAGProcessor.Env) (s : RAGProcessor.State)
  (q : string) (stream : bool) (k a : string) :
  RAGProcessor.cache s !! k = Some a -> truthy a = true ->
  RAGProcessor.cache (snd (RAGProcessor.ask E s q stream)) !! k = Some a.
Proof.
  intros Hk Ha.
  destruct (ask_step E s q stream) as (_ & _ & _ & [Hsame | (a' & _ & Hmiss & Hins)] & _).
  - rewrite Hsame. exact Hk.
  - rewrite Hins. destruct (decide (q = k)) as [-> | Hne].
    + unfold RAGProcessor._cache_get in Hmiss. rewrite Hk in Hmiss.
      rewrite (is_hit_truthy a Ha) in Hmiss. discriminate Hmiss.
    + rewrite lookup_insert_ne by exact Hne. exact Hk.
Qed.

Lemma run_asks_cons (E : RAGProcessor.Env) (s : RAGProcessor.State)
  (q : string) (stream : bool) (rest : list (string * bool)) :
  run_asks E s ((q, stream) :: rest)
  = (fst (RAGProcessor.ask E s q stream)
       :: fst (run_asks E (snd (RAGProcessor.ask E s q stream)) rest),
     snd (run_asks E (snd (RAGProcessor.ask E s q stream)) rest)).
Proof.
  cbn [run_asks]. destruct (RAGProcessor.ask E s q stream) as [r s1]. cbn [fst snd].
  destruct (run_asks E s1 rest) as [rs s2]. reflexivity.
Qed.

(** A non-streaming call that returns a non-empty answer leaves it in the
    cache under the question asked. *)
Lemma ask_caches_answer (E : RAGProcessor.Env) (s s1 : RAGProcessor.State)
  (q : string) (run1 : RAGProcessor.Run) (rep1 : RAGProcessor.Reply) :
  RAGProcessor.ask E s q false = (run1, s1) ->
  RAGProcessor.returned run1 = Ok (Some rep1) ->
  truthy (RAGProcessor.answer rep1) = true ->
  RAGProcessor.cache s1 !! q = Some (RAGProcessor.answer rep1).
Proof.
  intros Hask Hret Hne.
  unfold RAGProcessor.ask in Hask.
  destruct (RAGProcessor.is_hit (RAGProcessor._cache_get s q)) as [c |] eqn:Hhit.
  - injection Hask as <- <-. cbn in Hret. injection Hret as <-. cbn.
    unfold RAGProcessor.is_hit, RAGProcessor._cache_get in Hhit.
    destruct (RAGProcessor.cache s !! q) as [c' |]; [| discriminate Hhit].
    destruct (truthy c'); [| discriminate Hhit].
    injection Hhit as ->. reflexivity.
  - destruct (RAGProcessor.get_relevant_documents E q) as [docs | e];
      [| injection Hask as <- <-; discriminate Hret].
    cbn in Hask.
    destruct (RAGProcessor.llm_pipeline E _) as [generated | e];
      [| injection Hask as <- <-; discriminate Hret].
    injection Hask as <- <-. cbn in Hret. injection Hret as <-.
    cbn. apply lookup_insert_eq.
Qed.

(** No run of requests removes or replaces a non-empty entry of the cache. *)
Lemma run_asks_keeps_entry (E : RAGProcessor.Env) (reqs : list (string * bool))
  (s : RAGProcessor.State) (k a : string) :
  RAGProcessor.cache s !! k = Some a -> truthy a = true ->
  RAGProcessor.cache (snd (run_asks E s reqs)) !! k = Some a.
Proof.
  revert s. induction reqs as [| [q1 st1] rest IH]; intros s Hk Ha; [exact Hk |].
  rewrite run_asks_cons. cbn [snd]. apply IH; [| exact Ha].
  apply ask_keeps_nonempty_entry; assumption.
Qed.

(** C2, as amended: the cache key is the question string itself.  When a
    non-streaming call has returned a non-empty answer, every later call with
    the same string, streaming or not, whatever requests were served in
    between, returns that answer marked as cached and leaves the processor
    unchanged, so it calls neither the retriever nor the model. *)
Theorem same_question_served_from_cache (E : RAGProcessor.Env)
  (s s1 : RAGProcessor.State) (q : string) (stream2 : bool)
  (run1 : RAGProcessor.Run) (rep1 : RAGProcessor.Reply)
  (between : list (string * bool)) :
  RAGProcessor.ask E s q false = (run1, s1) ->
  RAGProcessor.returned run1 = Ok (Some rep1) ->
  truthy (RAGProcessor.answer rep1) = true ->
  let s2 := snd (run_asks E s1 between) in
  RAGProcessor.ask E s2 q stream2
  = ({| RAGProcessor.yielded := [];
        RAGProcessor.returned := Ok (Some (hit_reply (RAGProcessor.answer rep1))) |},
     s2)
  /\ RAGProcessor.calls (snd (RAGProcessor.ask E s2 q stream2)) = RAGProcessor.calls s2.
Proof.
  intros Hask Hret Hne. cbn zeta.
  assert (Hq : RAGProcessor.ask E (snd (run_asks E s1 between)) q stream2
               = ({| RAGProcessor.yielded := [];
                     RAGProcessor.returned :=
                       Ok (Some (hit_reply (RAGProcessor.answer rep1))) |},
                  snd (run_asks E s1 between))).
  { apply ask_hit. unfold RAGProcessor._cache_get.
    rewrite (run_asks_keeps_entry E between s1 q (RAGProcessor.answer rep1)
               (ask_caches_answer E s s1 q run1 rep1 Hask Hret Hne) Hne).
    apply is_hit_truthy, Hne. }
  split; [exact Hq |]. rewrite Hq. reflexivity.
Qed.

Lemma same_question_served_from_cache_witness :
  let s1 := snd (RAGProcessor.ask demo_env RAGProcessor.init "Is the train greener?" false) in
  let s2 := snd (run_asks demo_env s1 [("Eco hotels", false); ("Where to go?", true)]) in
  RAGProcessor.ask demo_env s2 "Is the train greener?" true
  = ({| RAGProcessor.yielded := [];
        RAGProcessor.returned :=
          Ok (Some (hit_reply "Take the train: it is the eco choice.")) |}, s2)
  /\ RAGProcessor.calls (snd (RAGProcessor.ask demo_env s2 "Is the train greener?" true))
     = RAGProcessor.calls s2.
Proof.
  apply (same_question_served_from_cache demo_env RAGProcessor.init _
           "Is the train greener?" true
           (fst (RAGProcessor.ask demo_env RAGProcessor.init "Is the train greener?" false))
           {| RAGProcessor.answer := "Take the train: it is the eco choice.";
              RAGProcessor.source_documents := Some [[("category", SStr "transportation")]];
              RAGProcessor.tokens := Some 304;
              RAGProcessor.response_time := Some (2 # 1);
              RAGProcessor.cached := false |}
           [("Eco hotels", false); ("Where to go?", true)]).
  - reflexivity.
  - reflexivity.
  - reflexivity.
Defined.

(** C2, as stated, fails: [Eco hotels] and [ eco hotels] are the same question
    after trimming and case-folding, yet the second call is a cache miss: it is
    not marked as cached and it calls the retriever and the model again. *)
Lemma normalized_question_counterexample :
  let q1 := "Eco hotels" in
  let q2 := " eco hotels" in
  let s1 := snd (RAGProcessor.ask demo_env RAGProcessor.init q1 false) in
  let run2 := fst (RAGProcessor.ask demo_env s1 q2 false) in
  let s2 := snd (RAGProcessor.ask demo_env s1 q2 false) in
  spec_normalize q1 = spec_normalize q2
  /\ (exists rep2, RAGProcessor.returned run2 = Ok (Some rep2)
                   /\ RAGProcessor.cached rep2 = false)
  /\ length (RAGProcessor.calls s1) = 2
  /\ exists prompt, RAGProcessor.calls s2
                    = RAGProcessor.calls s1
                      ++ [RAGProcessor.Retrieve q2; RAGProcessor.Generate prompt].
Proof.
  cbv zeta. split; [reflexivity |]. split; [| split].
  - eexists. split; reflexivity.
  - reflexivity.
  - eexists. reflexivity.
Qed.

(** An empty answer is stored but never served: [if cached:] takes the empty
    string for a miss. *)
Lemma empty_answer_is_never_a_hit (s : RAGProcessor.State) (q : string) :
  RAGProcessor.is_hit
    (RAGProcessor._cache_get (RAGProcessor._cache_set s q "") q) = None.
Proof.
  unfold RAGProcessor._cache_get, RAGProcessor._cache_set. cbn.
  rewrite lookup_insert_eq. reflexivity.
Qed.

(** ** Streaming mode of [RAGProcessor.ask] *)

(** In streaming mode the cache and the memory stay as they were, whatever
    happens. *)
Lemma streaming_keeps_cache_and_memory (E : RAGProcessor.Env)
  (s : RAGProcessor.State) (q : string) :
  RAGProcessor.cache (snd (RAGProcessor.ask E s q true)) = RAGProcessor.cache s
  /\ RAGProcessor.memory (snd (RAGProcessor.ask E s q true)) = RAGProcessor.memory s.
Proof.
  unfold RAGProcessor.ask.
  destruct (RAGProcessor.is_hit _); [split; reflexivity |].
  destruct (RAGProcessor.get_relevant_documents E q); [| split; reflexivity].
  cbn. destruct (RAGProcessor.llm_pipeline_stream E _) as [chunks [e |]];
    split; reflexivity.
Qed.

(** C8, as amended: on a cache miss with a working retriever and a stream that
    ends normally, draining the generator yields the model's chunks as they
    are, in order, and ends with [None]; no filter or fact check is applied to
    them, and the cache and the memory are left as they were. *)
Theorem streaming_yields_raw_chunks_only (E : RAGProcessor.Env)
  (s : RAGProcessor.State) (q : string) (docs : list Document)
  (chunks : list string) :
  RAGProcessor.is_hit (RAGProcessor._cache_get s q) = None ->
  RAGProcessor.get_relevant_documents E q = Ok docs ->
  RAGProcessor.llm_pipeline_stream E
    (RAGProcessor.prompt_template (join nl (map page_content docs)) q)
  = (chunks, None) ->
  fst (RAGProcessor.ask E s q true)
  = {| RAGProcessor.yielded := chunks; RAGProcessor.returned := Ok None |}
  /\ RAGProcessor.cache (snd (RAGProcessor.ask E s q true)) = RAGProcessor.cache s
  /\ RAGProcessor.memory (snd (RAGProcessor.ask E s q true)) = RAGProcessor.memory s.
Proof.
  intros Hmiss Hdocs Hstream. split.
  - unfold RAGProcessor.ask. rewrite Hmiss, Hdocs. cbn. rewrite Hstream. reflexivity.
  - apply streaming_keeps_cache_and_memory.
Qed.

Lemma streaming_yields_raw_chunks_only_witness :
  fst (RAGProcessor.ask demo_env RAGProcessor.init "Is the train greener?" true)
  = {| RAGProcessor.yielded := ["Take the "; "train."];
       RAGProcessor.returned := Ok None |}
  /\ RAGProcessor.cache
       (snd (RAGProcessor.ask demo_env RAGProcessor.init "Is the train greener?" true))
     = RAGProcessor.cache RAGProcessor.init
  /\ RAGProcessor.memory
       (snd (RAGProcessor.ask demo_env RAGProcessor.init "Is the train greener?" true))
     = RAGProcessor.memory RAGProcessor.init.
Proof.
  apply (streaming_yields_raw_chunks_only demo_env RAGProcessor.init
           "Is the train greener?"
           [ {| page_content := "Trains emit 35g CO2 per km.";
                metadata := [("category", SStr "transportation")] |} ]
           ["Take the "; "train."]).
  - reflexivity.
  - reflexivity.
  - reflexivity.
Defined.

(** C8, as stated, fails: after the stream is drained the question is still
    absent from the cache, while the non-streaming call has stored its answer;
    a repeated streaming question therefore calls the model again. *)
Lemma streaming_bookkeeping_counterexample :
  let q := "Is the train greener?" in
  let streamed := snd (RAGProcessor.ask demo_env RAGProcessor.init q true) in
  let plain := snd (RAGProcessor.ask demo_env RAGProcessor.init q false) in
  RAGProcessor.yielded (fst (RAGProcessor.ask demo_env RAGProcessor.init q true))
  = ["Take the "; "train."]
  /\ RAGProcessor._cache_get streamed q = None
  /\ RAGProcessor._cache_get plain q = Some "Take the train: it is the eco choice."
  /\ length (RAGProcessor.calls (snd (RAGProcessor.ask demo_env streamed q true))) = 4.
Proof. cbv zeta. repeat split; reflexivity. Qed.

(** ** Statistics of [RAGProcessor] *)









Lemma div_by_length (a : Q) (x : Q) (l : list Q) :
  div a (inject_Z (Z.of_nat (length (x :: l))))
  = Ok (a / inject_Z (Z.of_nat (length (x :: l))))%Q.
Proof.
  unfold div.
  destruct (Qeq_bool (inject_Z (Z.of_nat (length (x :: l)))) 0) eqn:Hz;
    [| reflexivity].
  apply Qeq_bool_iff in Hz. unfold Qeq in Hz. cbn in Hz. lia.
Qed.

(** [get_stats] never raises, on any state. *)
Lemma get_stats_total (s : RAGProcessor.State) :
  exists st, RAGProcessor.get_stats s = Ok st.
Proof.
  unfold RAGProcessor.get_stats.
  destruct (RAGProcessor.response_times s) as [| x l] eqn:Hl.
  - eexists. reflexivity.
  - rewrite div_by_length. eexists. reflexivity.
Qed.


(** On a fresh processor with nothing recorded the average is exactly 0. *)
Lemma stats_of_fresh_processor :
  RAGProcessor.get_stats RAGProcessor.init
  = Ok {| RAGProcessor.total_tokens := 0; RAGProcessor.avg_response_time := 0%Q;
          RAGProcessor.cache_size := 0 |}.
Proof. reflexivity. Qed.

(** ** Failures inside a request *)

(** An environment whose retriever is out of reach. *)
Definition retriever_down : RAGProcessor.Env :=
  {| RAGProcessor.get_relevant_documents := fun _ =>
       Raise (ExternalError "connection refused");
     RAGProcessor.llm_pipeline := RAGProcessor.llm_pipeline demo_env;
     RAGProcessor.llm_pipeline_stream := RAGProcessor.llm_pipeline_stream demo_env;
     RAGProcessor.encode_len := RAGProcessor.encode_len demo_env;
     RAGProcessor.clock := RAGProcessor.clock demo_env |}.

(** [RAGProcessor.ask] has no handler: an exception of the retriever or of the
    model ends the run. *)
Lemma ask_propagates_retriever_failure (E : RAGProcessor.Env)
  (s : RAGProcessor.State) (q : string) (stream : bool) (e : Exn) :
  RAGProcessor.is_hit (RAGProcessor._cache_get s q) = None ->
  RAGProcessor.get_relevant_documents E q = Raise e ->
  RAGProcessor.returned (fst (RAGProcessor.ask E s q stream)) = Raise e.
Proof.
  intros Hmiss Hfail. unfold RAGProcessor.ask. rewrite Hmiss, Hfail. reflexivity.
Qed.

Lemma ask_propagates_model_failure (E : RAGProcessor.Env)
  (s : RAGProcessor.State) (q : string) (docs : list Document) (e : Exn) :
  RAGProcessor.is_hit (RAGProcessor._cache_get s q) = None ->
  RAGProcessor.get_relevant_documents E q = Ok docs ->
  RAGProcessor.llm_pipeline E
    (RAGProcessor.prompt_template (join nl (map page_content docs)) q) = Raise e ->
  fst (RAGProcessor.ask E s q false)
  = {| RAGProcessor.yielded := []; RAGProcessor.returned := Raise e |}.
Proof.
  intros Hmiss Hdocs Hfail. unfold RAGProcessor.ask. rewrite Hmiss, Hdocs.
  cbn. rewrite Hfail. reflexivity.
Qed.

(** A stream that breaks ends the run with its exception, after the chunks it
    produced. *)
Lemma ask_propagates_stream_failure (E : RAGProcessor.Env)
  (s : RAGProcessor.State) (q : string) (docs : list Document)
  (chunks : list string) (e : Exn) :
  RAGProcessor.is_hit (RAGProcessor._cache_get s q) = None ->
  RAGProcessor.get_relevant_documents E q = Ok docs ->
  RAGProcessor.llm_pipeline_stream E
    (RAGProcessor.prompt_template (join nl (map page_content docs)) q)
  = (chunks, Some e) ->
  fst (RAGProcessor.ask E s q true)
  = {| RAGProcessor.yielded := chunks; RAGProcessor.returned := Raise e |}.
Proof.
  intros Hmiss Hdocs Hfail. unfold RAGProcessor.ask. rewrite Hmiss, Hdocs.
  cbn. rewrite Hfail. reflexivity.
Qed.

(** C6, as stated, fails: with the retriever out of reach, driving
    [RAGProcessor.ask] ends with the retriever's exception and no answer. *)
Lemma ask_raises_when_retriever_down :
  fst (RAGProcessor.ask retriever_down RAGProcessor.init "Is the train greener?" false)
  = {| RAGProcessor.yielded := [];
       RAGProcessor.returned := Raise (ExternalError "connection refused") |}
  /\ raises (RAGProcessor.returned
               (fst (RAGProcessor.ask retriever_down RAGProcessor.init
                       "Is the train greener?" false))) = true.
Proof. split; reflexivity. Qed.

(** The two [get_travel_advice] methods do catch every exception. *)
Lemma service_get_travel_advice_never_raises
  (self : SustainableTravelRAGService.Service) (question : string)
  (user_context : option SustainableTravelRAGService.UserContext) :
  exists a, fst (SustainableTravelRAGService.get_travel_advice self question user_context)
            = Ok a.
Proof.
  unfold SustainableTravelRAGService.get_travel_advice.
  destruct (SustainableTravelRAGService.qa_chain self) as [chain |].
  - destruct (chain _ _) as [[result | e] msgs]; cbn; eexists; reflexivity.
  - eexists. reflexivity.
Qed.

Lemma service_failure_answer (self : SustainableTravelRAGService.Service)
  (chain : SustainableTravelRAGService.Chain) (question : string)
  (user_context : option SustainableTravelRAGService.UserContext) (e : Exn) :
  SustainableTravelRAGService.qa_chain self = Some chain ->
  fst (chain (SustainableTravelRAGService._enhance_question question user_context)
             (SustainableTravelRAGService.messages self)) = Raise e ->
  fst (SustainableTravelRAGService.get_travel_advice self question user_context)
  = Ok {| SustainableTravelRAGService.answer := SustainableTravelRAGService.error_text;
          SustainableTravelRAGService.sources := [];
          SustainableTravelRAGService.confidence := 0.0%Q;
          SustainableTravelRAGService.chat_history := None |}.
Proof.
  intros Hchain Hfail. unfold SustainableTravelRAGService.get_travel_advice.
  rewrite Hchain. destruct (chain _ _) as [outcome msgs]. cbn in Hfail. subst outcome.
  reflexivity.
Qed.

Lemma simple_get_travel_advice_never_raises
  (self : SimpleSustainableTravelRAG.Service) (question : string) :
  exists a, SimpleSustainableTravelRAG.get_travel_advice self question = Ok a.
Proof.
  unfold SimpleSustainableTravelRAG.get_travel_advice.
  destruct (SimpleSustainableTravelRAG.vectorstore self) as [vs |]; cbn.
  - destruct (SimpleSustainableTravelRAG.similarity_search vs question 3)
      as [[| d docs] | e]; cbn; eexists; reflexivity.
  - eexists. reflexivity.
Qed.

Definition service_error_answer : SustainableTravelRAGService.Answer :=
  {| SustainableTravelRAGService.answer := SustainableTravelRAGService.error_text;
     SustainableTravelRAGService.sources := [];
     SustainableTravelRAGService.confidence := 0.0%Q;
     SustainableTravelRAGService.chat_history := None |}.

(** C6, as amended: the two [get_travel_advice] methods never raise.  When the
    chain raises, the full service answers with its error text at confidence
    0.0; when the search raises, the simple pipeline answers with its canned
    fallback at confidence 0.5.  [RAGProcessor.ask] has no handler: on a cache
    miss an exception of the retriever ends the run, streaming or not; when the
    retriever answers, an exception of the model ends the non-streaming run,
    and a stream that breaks ends the streaming run after the chunks it
    produced. *)
Theorem get_travel_advice_never_raises :
  (forall (self : SustainableTravelRAGService.Service) (question : string)
          (uc : option SustainableTravelRAGService.UserContext),
      exists a,
        fst (SustainableTravelRAGService.get_travel_advice self question uc) = Ok a
        /\ match SustainableTravelRAGService.qa_chain self with
           | Some chain =>
               match fst (chain (SustainableTravelRAGService._enhance_question question uc)
                                (SustainableTravelRAGService.messages self)) with
               | Raise _ => a = service_error_answer
               | Ok _ => True
               end
           | None => True
           end)
  /\ (forall (self : SimpleSustainableTravelRAG.Service) (question : string),
         exists a,
           SimpleSustainableTravelRAG.get_travel_advice self question = Ok a
           /\ match SimpleSustainableTravelRAG.vectorstore self with
              | Some vs =>
                  match SimpleSustainableTravelRAG.similarity_search vs question 3 with
                  | Raise _ =>
                      a = SimpleSustainableTravelRAG._fallback_response question
                      /\ SimpleSustainableTravelRAG.confidence a = 0.5%Q
                  | Ok _ => True
                  end
              | None => True
              end)
  /\ (forall (E : RAGProcessor.Env) (s : RAGProcessor.State) (q : string)
             (stream : bool),
         match RAGProcessor.is_hit (RAGProcessor._cache_get s q) with
         | Some _ => True
         | None =>
             match RAGProcessor.get_relevant_documents E q with
             | Raise e =>
                 RAGProcessor.returned (fst (RAGProcessor.ask E s q stream)) = Raise e
             | Ok docs =>
                 let prompt :=
                   RAGProcessor.prompt_template (join nl (map page_content docs)) q in
                 match RAGProcessor.llm_pipeline E prompt with
                 | Raise e =>
                     fst (RAGProcessor.ask E s q false)
                     = {| RAGProcessor.yielded := []; RAGProcessor.returned := Raise e |}
                 | Ok _ => True
                 end
                 /\ match RAGProcessor.llm_pipeline_stream E prompt with
                    | (chunks, Some e) =>
                        fst (RAGProcessor.ask E s q true)
                        = {| RAGProcessor.yielded := chunks;
                             RAGProcessor.returned := Raise e |}
                    | (_, None) => True
                    end
             end
         end).
Proof.
  split; [| split].
  - intros self question uc.
    destruct (service_get_travel_advice_never_raises self question uc) as [a Ha].
    exists a. split; [exact Ha |].
    destruct (SustainableTravelRAGService.qa_chain self) as [chain |] eqn:Hchain;
      [| exact I].
    destruct (fst (chain _ _)) as [r | e] eqn:Hfail; [exact I |].
    rewrite (service_failure_answer self chain question uc e Hchain Hfail) in Ha.
    injection Ha as <-. reflexivity.
  - intros self question.
    destruct (simple_get_travel_advice_never_raises self question) as [a Ha].
    exists a. split; [exact Ha |].
    unfold SimpleSustainableTravelRAG.get_travel_advice in Ha.
    destruct (SimpleSustainableTravelRAG.vectorstore self) as [vs |]; [| exact I].
    destruct (SimpleSustainableTravelRAG.similarity_search vs question 3)
      as [docs | e]; [exact I |].
    cbn in Ha. injection Ha as <-. split; reflexivity.
  - intros E s q stream.
    destruct (RAGProcessor.is_hit _) eqn:Hmiss; [exact I |].
    destruct (RAGProcessor.get_relevant_documents E q) as [docs | e] eqn:Hfail.
    + cbn zeta. split.
      * destruct (RAGProcessor.llm_pipeline E _) as [generated | e] eqn:Hgen;
          [exact I |].
        apply ask_propagates_model_failure with (docs := docs); assumption.
      * destruct (RAGProcessor.llm_pipeline_stream E _) as [chunks [e |]] eqn:Hgen;
          [| exact I].
        apply ask_propagates_stream_failure with (docs := docs); assumption.
    + apply ask_propagates_retriever_failure; assumption.
Qed.

(** ** Canned answers of the simple pipeline *)

(** The rule table [_fallback_response] walks through, first match wins. *)
Definition fallback_rules : list (list string * string) :=
  [ (["destination"; "where"; "place"], SimpleSustainableTravelRAG.fallback_destination);
    (["transport"; "flight"; "travel"], SimpleSustainableTravelRAG.fallback_transport);
    (["accommodation"; "hotel"], SimpleSustainableTravelRAG.fallback_accommodation) ].

Definition first_rule (question : string) : option (list string * string) :=
  List.find (fun rule => any_in (fst rule) (lower question)) fallback_rules.

(** No document can be had for [question]: there is no store, the search
    raises, or it finds nothing. *)
Definition store_unavailable (self : SimpleSustainableTravelRAG.Service)
  (question : string) : Prop :=
  match SimpleSustainableTravelRAG.vectorstore self with
  | None => True
  | Some vs =>
      match SimpleSustainableTravelRAG.similarity_search vs question 3 with
      | Ok (_ :: _) => False
      | _ => True
      end
  end.

Lemma fallback_follows_rule_table (question : string) :
  SimpleSustainableTravelRAG.answer
    (SimpleSustainableTravelRAG._fallback_response question)
  = match first_rule question with
    | Some rule => snd rule
    | None => SimpleSustainableTravelRAG.fallback_general
    end.
Proof.
  unfold SimpleSustainableTravelRAG._fallback_response, first_rule, fallback_rules.
  cbn [SimpleSustainableTravelRAG.answer List.find fst snd].
  destruct (any_in ["destination"; "where"; "place"] (lower question)); [reflexivity |].
  destruct (any_in ["transport"; "flight"; "travel"] (lower question)); [reflexivity |].
  destruct (any_in ["accommodation"; "hotel"] (lower question)); reflexivity.
Qed.

(** C7, as amended: when no document can be had, the simple pipeline returns
    the canned answer picked by the first matching rule of a three-rule table
    (destination, transport, accommodation) or else the general advice, with
    confidence exactly 0.5 and no sources. *)
Theorem fallback_is_canned_answer (self : SimpleSustainableTravelRAG.Service)
  (question : string) :
  store_unavailable self question ->
  exists a,
    SimpleSustainableTravelRAG.get_travel_advice self question = Ok a
    /\ SimpleSustainableTravelRAG.answer a
       = match first_rule question with
         | Some rule => snd rule
         | None => SimpleSustainableTravelRAG.fallback_general
         end
    /\ SimpleSustainableTravelRAG.confidence a = 0.5%Q
    /\ SimpleSustainableTravelRAG.sources a = [].
Proof.
  intros Hdown.
  exists (SimpleSustainableTravelRAG._fallback_response question).
  split; [| split; [apply fallback_follows_rule_table | split; reflexivity]].
  unfold store_unavailable in Hdown.
  unfold SimpleSustainableTravelRAG.get_travel_advice.
  destruct (SimpleSustainableTravelRAG.vectorstore self) as [vs |]; [| reflexivity].
  destruct (SimpleSustainableTravelRAG.similarity_search vs question 3)
    as [[| d docs] | e]; [reflexivity | contradiction | reflexivity].
Qed.

Lemma fallback_is_canned_answer_witness :
  exists a,
    SimpleSustainableTravelRAG.get_travel_advice
      {| SimpleSustainableTravelRAG.vectorstore := None |} "Where should I go?" = Ok a
    /\ SimpleSustainableTravelRAG.answer a
       = match first_rule "Where should I go?" with
         | Some rule => snd rule
         | None => SimpleSustainableTravelRAG.fallback_general
         end
    /\ SimpleSustainableTravelRAG.confidence a = 0.5%Q
    /\ SimpleSustainableTravelRAG.sources a = [].
Proof.
  apply (fallback_is_canned_answer
           {| SimpleSustainableTravelRAG.vectorstore := None |} "Where should I go?").
  exact I.
Defined.

(** C7, as stated, fails: the fallback table has no budget rule and no carbon
    rule.  A budget question and a carbon question both get the general advice,
    although the retrieval-backed path has a dedicated answer for each. *)
Lemma fallback_categories_counterexample :
  let down := {| SimpleSustainableTravelRAG.vectorstore := None |} in
  let carbon_q := "How big is my carbon footprint?" in
  let budget_q := "Any cheap budget tips?" in
  SimpleSustainableTravelRAG.get_travel_advice down carbon_q
  = Ok {| SimpleSustainableTravelRAG.answer := SimpleSustainableTravelRAG.fallback_general;
          SimpleSustainableTravelRAG.sources := [];
          SimpleSustainableTravelRAG.confidence := 0.5%Q |}
  /\ SimpleSustainableTravelRAG.get_travel_advice down budget_q
     = SimpleSustainableTravelRAG.get_travel_advice down carbon_q
  /\ SimpleSustainableTravelRAG._generate_response carbon_q ""
     = SimpleSustainableTravelRAG.carbon_text
  /\ SimpleSustainableTravelRAG._generate_response budget_q ""
     = SimpleSustainableTravelRAG.budget_text.
Proof. cbv zeta. repeat split; reflexivity. Qed.

(** Without a chain the full service answers with a fixed apology, also at
    confidence 0.5 and without sources. *)
Lemma service_unavailable_answer (msgs : list SustainableTravelRAGService.Message)
  (question : string) (uc : option SustainableTravelRAGService.UserContext) :
  fst (SustainableTravelRAGService.get_travel_advice
         {| SustainableTravelRAGService.qa_chain := None;
            SustainableTravelRAGService.messages := msgs |} question uc)
  = Ok {| SustainableTravelRAGService.answer :=
            SustainableTravelRAGService.unavailable_text;
          SustainableTravelRAGService.sources := [];
          SustainableTravelRAGService.confidence := 0.5%Q;
          SustainableTravelRAGService.chat_history := None |}.
Proof. reflexivity. Qed.

(** ** Conversation window *)

Lemma last_n_skipn {T : Type} (k : nat) (l : list T) :
  0 < k -> last_n k l = skipn (length l - k) l.
Proof. intros Hk. destruct k as [| k]; [lia | reflexivity]. Qed.


Lemma last_n_app {T : Type} (k : nat) (l1 l2 : list T) :
  0 < k -> k <= length l2 -> last_n k (l1 ++ l2) = skipn (length l2 - k) l2.
Proof.
  intros Hpos Hk. rewrite last_n_skipn by exact Hpos. rewrite length_app, skipn_app.
  replace (length l1 + length l2 - k - length l1) with (length l2 - k) by lia.
  rewrite skipn_all2 by lia. reflexivity.
Qed.











(** ** Validation of the knowledge base *)

Definition required_fields : list string :=
  ["location"; "category"; "sustainability_score"].

(** The first required field the metadata object lacks. *)
Definition missing_field (meta : list (string * KnowledgeBaseBuilder.JSON))
  : option string :=
  List.find (fun f => negb (bool_decide
                              (is_Some (KnowledgeBaseBuilder.lookup_member f meta))))
            required_fields.

(** A record with a non-empty text and an object as metadata. *)
Definition record_with (members meta : list (string * KnowledgeBaseBuilder.JSON))
  : Prop :=
  (exists t, KnowledgeBaseBuilder.lookup_member "text" members = Some t
             /\ KnowledgeBaseBuilder.json_truthy t = true)
  /\ KnowledgeBaseBuilder.lookup_member "metadata" members
     = Some (KnowledgeBaseBuilder.JObj meta).


(** What the assertions decide for a record with text and metadata. *)
Lemma validate_doc_record (i : nat)
  (members meta : list (string * KnowledgeBaseBuilder.JSON)) :
  record_with members meta ->
  KnowledgeBaseBuilder.validate_doc i (KnowledgeBaseBuilder.JObj members)
  = match missing_field meta with
    | Some f => Raise (AssertionError ("Missing " +:+ f +:+ " in metadata " +:+ pretty i))
    | None => Ok tt
    end.
Proof.
  intros [(t & Htext & Htruthy) Hmeta].
  unfold KnowledgeBaseBuilder.validate_doc, KnowledgeBaseBuilder.assert,
    KnowledgeBaseBuilder.py_in, KnowledgeBaseBuilder.py_getitem,
    KnowledgeBaseBuilder.show, missing_field, required_fields.
  rewrite Htext, Hmeta. cbn [bind]. rewrite Htruthy.
  rewrite (bool_decide_eq_true_2 _ (ltac:(eexists; reflexivity) : is_Some (Some t))).
  rewrite (bool_decide_eq_true_2 _
             (ltac:(eexists; reflexivity)
               : is_Some (Some (KnowledgeBaseBuilder.JObj meta)))).
  cbn [bind List.find].
  destruct (bool_decide (is_Some (KnowledgeBaseBuilder.lookup_member "location" meta)));
    cbn [bind negb]; [| reflexivity].
  destruct (bool_decide (is_Some (KnowledgeBaseBuilder.lookup_member "category" meta)));
    cbn [bind negb]; [| reflexivity].
  destruct (bool_decide
              (is_Some (KnowledgeBaseBuilder.lookup_member "sustainability_score" meta)));
    cbn [bind negb]; reflexivity.
Qed.


Definition full_metadata : list (string * KnowledgeBaseBuilder.JSON) :=
  [ ("location", KnowledgeBaseBuilder.JStr "Unknown");
    ("category", KnowledgeBaseBuilder.JStr "eco_hotel");
    ("sustainability_score", KnowledgeBaseBuilder.JNum 80) ].


Definition kb_members (text : string) (meta : list (string * KnowledgeBaseBuilder.JSON))
  : list (string * KnowledgeBaseBuilder.JSON) :=
  [ ("text", KnowledgeBaseBuilder.JStr text);
    ("metadata", KnowledgeBaseBuilder.JObj meta);
    ("source", KnowledgeBaseBuilder.JStr "https://www.example.com/eco-hotel") ].

Definition kb_record (text : string) (meta : list (string * KnowledgeBaseBuilder.JSON))
  : KnowledgeBaseBuilder.JSON :=
  KnowledgeBaseBuilder.JObj (kb_members text meta).



(** ** Batched upsert *)

(** The batches [upsert_vectors] submits for a positive batch size [n]. *)
Definition batches_of (vectors : list PineconeManager.Vector) (n : nat)
  : list (list PineconeManager.Triple) :=
  map (fun i => PineconeManager.to_upsert (slice i (i + n) vectors))
      (range_step (length vectors) n).

(** How many of the next [n] calls the remote accepts before it first refuses
    one. *)
Fixpoint accepted (outs : list bool) (n : nat) : nat :=
  match n with
  | O => O
  | S n' => match outs with
            | false :: _ => O
            | _ => S (accepted (tail outs) n')
            end
  end.

Lemma accepted_le (outs : list bool) (n : nat) : accepted outs n <= n.
Proof.
  revert outs. induction n as [| n IH]; intros outs; cbn; [lia |].
  destruct outs as [| [] rest]; cbn; try lia.
  - specialize (IH []). cbn in IH. lia.
  - specialize (IH rest). lia.
Qed.

Lemma upsert_loop_run (starts : list nat) (vectors : list PineconeManager.Vector)
  (n : nat) (idx : PineconeManager.Index) :
  let bs := map (fun i => PineconeManager.to_upsert (slice i (i + n) vectors)) starts in
  let j := accepted (PineconeManager.outcomes idx) (length starts) in
  let run := PineconeManager.upsert_loop starts vectors n idx in
  PineconeManager.attempts (snd run) = PineconeManager.attempts idx ++ firstn (S j) bs
  /\ PineconeManager.committed (snd run)
     = PineconeManager.committed idx ++ firstn j bs
  /\ fst run = (if (j =? length starts)%nat then Ok tt
                else Raise (ExternalError "upsert failed")).
Proof.
  revert idx. induction starts as [| i rest IH]; intros idx; cbn zeta.
  - cbn. rewrite !app_nil_r. repeat split; reflexivity.
  - cbn [PineconeManager.upsert_loop map length accepted].
    unfold PineconeManager.index_upsert.
    destruct (PineconeManager.outcomes idx) as [| [] outs] eqn:Houts.
    + specialize (IH {| PineconeManager.outcomes := tail [];
                        PineconeManager.attempts :=
                          PineconeManager.attempts idx
                          ++ [PineconeManager.to_upsert (slice i (i + n) vectors)];
                        PineconeManager.committed :=
                          PineconeManager.committed idx
                          ++ [PineconeManager.to_upsert (slice i (i + n) vectors)];
                        PineconeManager.respond := PineconeManager.respond idx |}).
      cbn zeta in IH. destruct IH as (Ha & Hc & Hr).
      cbn [PineconeManager.outcomes PineconeManager.attempts
           PineconeManager.committed] in Ha, Hc, Hr.
      rewrite Ha, Hc, Hr. rewrite <- !app_assoc. repeat split; reflexivity.
    + specialize (IH {| PineconeManager.outcomes := tail (true :: outs);
                        PineconeManager.attempts :=
                          PineconeManager.attempts idx
                          ++ [PineconeManager.to_upsert (slice i (i + n) vectors)];
                        PineconeManager.committed :=
                          PineconeManager.committed idx
                          ++ [PineconeManager.to_upsert (slice i (i + n) vectors)];
                        PineconeManager.respond := PineconeManager.respond idx |}).
      cbn zeta in IH. destruct IH as (Ha & Hc & Hr).
      cbn [PineconeManager.outcomes PineconeManager.attempts
           PineconeManager.committed] in Ha, Hc, Hr.
      rewrite Ha, Hc, Hr. rewrite <- !app_assoc. repeat split; reflexivity.
    + cbn. rewrite app_nil_r. repeat split; reflexivity.
Qed.

Lemma slices_concat {A : Type} (l : list A) (n c : nat) :
  concat (map (fun i => slice i (i + n) l) (map (fun j => j * n) (seq 0 c)))
  = firstn (c * n) l.
Proof.
  induction c as [| c IH].
  - reflexivity.
  - rewrite seq_S, !map_app, concat_app, IH. cbn [map concat Nat.add].
    rewrite app_nil_r. unfold slice.
    replace (c * n + n - c * n) with n by lia.
    rewrite take_take_drop. f_equal. lia.
Qed.

Lemma range_step_covers (len n : nat) : 0 < n -> len <= (len + n - 1) / n * n.
Proof.
  intros Hn.
  pose proof (Nat.div_mod (len + n - 1) n ltac:(lia)) as Hdm.
  pose proof (Nat.mod_upper_bound (len + n - 1) n ltac:(lia)) as Hub.
  nia.
Qed.

Lemma range_step_below (len n i : nat) :
  0 < n -> In i (range_step len n) -> i < len.
Proof.
  intros Hn Hin. unfold range_step in Hin.
  apply in_map_iff in Hin as (j & <- & Hj). apply in_seq in Hj.
  pose proof (Nat.div_mod (len + n - 1) n ltac:(lia)) as Hdm.
  nia.
Qed.

Lemma batches_cover (vectors : list PineconeManager.Vector) (n : nat) :
  0 < n ->
  concat (batches_of vectors n) = PineconeManager.to_upsert vectors
  /\ Forall (fun b => 0 < length b <= n) (batches_of vectors n).
Proof.
  intros Hn. unfold batches_of. split.
  - rewrite <- (map_map (fun i => slice i (i + n) vectors) PineconeManager.to_upsert).
    unfold PineconeManager.to_upsert at 1. rewrite <- concat_map.
    unfold range_step. rewrite slices_concat.
    rewrite firstn_all2 by (apply range_step_covers; exact Hn). reflexivity.
  - apply List.Forall_forall. intros b Hb.
    apply in_map_iff in Hb as (i & <- & Hi).
    apply (range_step_below _ _ _ Hn) in Hi.
    unfold PineconeManager.to_upsert, slice.
    rewrite length_map, length_firstn, length_skipn. lia.
Qed.

(** C5, as amended: for a positive batch size the entries are cut into
    consecutive non-empty batches of at most that size, submitted in order, each
    at most once.  The batches up to the first refusal are committed and stay
    so; the refused batch is not submitted again, its exception ends the call,
    and no later batch is submitted. *)
Theorem upsert_submits_batches_once (idx : PineconeManager.Index)
  (vectors : list PineconeManager.Vector) (batch_size : Z) :
  (0 < batch_size)%Z ->
  let bs := batches_of vectors (Z.to_nat batch_size) in
  let j := accepted (PineconeManager.outcomes idx) (length bs) in
  let run := PineconeManager.upsert_vectors idx vectors batch_size in
  concat bs = PineconeManager.to_upsert vectors
  /\ Forall (fun b => 0 < length b <= Z.to_nat batch_size) bs
  /\ PineconeManager.attempts (snd run) = PineconeManager.attempts idx ++ firstn (S j) bs
  /\ PineconeManager.committed (snd run)
     = PineconeManager.committed idx ++ firstn j bs
  /\ fst run = (if (j =? length bs)%nat then Ok tt
                else Raise (ExternalError "upsert failed")).
Proof.
  intros Hpos. cbn zeta.
  destruct (batches_cover vectors (Z.to_nat batch_size) ltac:(lia)) as [Hcat Hlen].
  split; [exact Hcat |]. split; [exact Hlen |].
  unfold PineconeManager.upsert_vectors.
  destruct (batch_size =? 0)%Z eqn:Hz; [lia |].
  destruct (batch_size <? 0)%Z eqn:Hneg; [lia |].
  pose proof (upsert_loop_run (range_step (length vectors) (Z.to_nat batch_size))
                vectors (Z.to_nat batch_size) idx) as Hrun.
  cbn zeta in Hrun. unfold batches_of. rewrite length_map.
  exact Hrun.
Qed.

Definition three_vectors : list PineconeManager.Vector :=
  [ {| PineconeManager.id := "vec_0"; PineconeManager.embedding := [1; 0]%Q;
       PineconeManager.v_metadata := [("location", SStr "Berlin")] |};
    {| PineconeManager.id := "vec_1"; PineconeManager.embedding := [0; 1]%Q;
       PineconeManager.v_metadata := [("location", SStr "Berlin")] |};
    {| PineconeManager.id := "vec_2"; PineconeManager.embedding := [1; 1]%Q;
       PineconeManager.v_metadata := [("location", SStr "Berlin")] |} ].

(** A remote that refuses its second call only. *)
Definition second_call_fails : PineconeManager.Index :=
  {| PineconeManager.outcomes := [true; false; true; true];
     PineconeManager.attempts := [];
     PineconeManager.committed := [];
     PineconeManager.respond := fun _ => Ok [] |}.

Lemma upsert_submits_batches_once_witness :
  let run := PineconeManager.upsert_vectors second_call_fails three_vectors 2 in
  PineconeManager.attempts (snd run) = batches_of three_vectors 2
  /\ PineconeManager.committed (snd run) = firstn 1 (batches_of three_vectors 2)
  /\ fst run = Raise (ExternalError "upsert failed").
Proof.
  destruct (upsert_submits_batches_once second_call_fails three_vectors 2 ltac:(lia))
    as (_ & _ & Ha & Hc & Hr).
  cbv zeta. split; [exact Ha |]. split; [exact Hc | exact Hr].
Defined.

(** C5, as stated, fails: the remote refuses the second of three batches once
    and would accept the next call.  The call ends with the exception; the
    second batch was submitted exactly once, the third never, and the outcome
    that a retry would have met is still unused. *)
Lemma upsert_retry_counterexample :
  let run := PineconeManager.upsert_vectors second_call_fails three_vectors 1 in
  let b1 := PineconeManager.to_upsert (slice 0 1 three_vectors) in
  let b2 := PineconeManager.to_upsert (slice 1 2 three_vectors) in
  fst run = Raise (ExternalError "upsert failed")
  /\ PineconeManager.attempts (snd run) = [b1; b2]
  /\ PineconeManager.committed (snd run) = [b1]
  /\ PineconeManager.outcomes (snd run) = [true; true].
Proof. cbv zeta. repeat split; reflexivity. Qed.

(** A zero batch size raises before any batch is submitted; a negative one
    submits nothing and returns. *)
Lemma upsert_nonpositive_batch_size (idx : PineconeManager.Index)
  (vectors : list PineconeManager.Vector) (batch_size : Z) :
  (batch_size <= 0)%Z ->
  snd (PineconeManager.upsert_vectors idx vectors batch_size) = idx
  /\ fst (PineconeManager.upsert_vectors idx vectors batch_size)
     = (if (batch_size =? 0)%Z
        then Raise (ValueError "range() arg 3 must not be zero") else Ok tt).
Proof.
  intros Hle. unfold PineconeManager.upsert_vectors.
  destruct (batch_size =? 0)%Z eqn:Hz; [split; reflexivity |].
  destruct (batch_size <? 0)%Z eqn:Hneg; [split; reflexivity | lia].
Qed.

(** ** Similarity query *)

(** [b] may follow [a] in a descending ranking. *)
Definition desc (a b : PineconeManager.Match) : Prop :=
  (PineconeManager.m_score b <= PineconeManager.m_score a)%Q.

Definition above (threshold : Q) (m : PineconeManager.Match) : Prop :=
  Qle_bool threshold (PineconeManager.m_score m) = true.

Definition scored (q : Q) (m : PineconeManager.Match) : Prop :=
  Qeq_bool (PineconeManager.m_score m) q = true.

#[local] Instance above_dec (threshold : Q) (m : PineconeManager.Match)
  : Decision (above threshold m).
Proof. unfold above. apply _. Defined.

#[local] Instance scored_dec (q : Q) (m : PineconeManager.Match)
  : Decision (scored q m).
Proof. unfold scored. apply _. Defined.

Lemma insert_desc_Forall (P : PineconeManager.Match -> Prop)
  (x : PineconeManager.Match) (l : list PineconeManager.Match) :
  P x -> Forall P l -> Forall P (PineconeManager.insert_desc x l).
Proof.
  intros Hx Hl. induction Hl as [| y r Hy Hr IH]; cbn.
  - constructor; [exact Hx | constructor].
  - destruct (Qle_bool _ _); repeat constructor; assumption.
Qed.

Lemma insert_desc_sorted (x : PineconeManager.Match) (l : list PineconeManager.Match) :
  StronglySorted desc l -> StronglySorted desc (PineconeManager.insert_desc x l).
Proof.
  intros Hs. induction Hs as [| y r Hs IH Hall]; cbn.
  - constructor; constructor.
  - destruct (Qle_bool (PineconeManager.m_score y) (PineconeManager.m_score x)) eqn:Hle.
    + apply Qle_bool_iff in Hle.
      constructor; [constructor; assumption |].
      constructor; [exact Hle |].
      eapply List.Forall_impl; [| exact Hall].
      intros z Hz. unfold desc in *. eapply Qle_trans; eassumption.
    + constructor; [exact IH |].
      apply insert_desc_Forall; [| exact Hall].
      unfold desc. apply Qlt_le_weak. apply Qnot_le_lt. intros Hyx.
      apply Qle_bool_iff in Hyx. congruence.
Qed.

Lemma sort_desc_sorted (l : list PineconeManager.Match) :
  StronglySorted desc (PineconeManager.sort_desc l).
Proof.
  induction l as [| x r IH]; cbn; [constructor | apply insert_desc_sorted, IH].
Qed.

Lemma insert_desc_perm (x : PineconeManager.Match) (l : list PineconeManager.Match) :
  Permutation (x :: l) (PineconeManager.insert_desc x l).
Proof.
  induction l as [| y r IH]; cbn; [reflexivity |].
  destruct (Qle_bool _ _); [reflexivity |].
  rewrite perm_swap. constructor. exact IH.
Qed.

Lemma sort_desc_perm (l : list PineconeManager.Match) :
  Permutation l (PineconeManager.sort_desc l).
Proof.
  induction l as [| x r IH]; cbn; [reflexivity |].
  rewrite <- insert_desc_perm. constructor. exact IH.
Qed.

(** The sort is stable: the matches of any one score keep their order. *)
Lemma insert_desc_stable (q : Q) (x : PineconeManager.Match)
  (l : list PineconeManager.Match) :
  filter (scored q) (PineconeManager.insert_desc x l) = filter (scored q) (x :: l).
Proof.
  induction l as [| y r IH]; cbn [PineconeManager.insert_desc]; [reflexivity |].
  destruct (Qle_bool (PineconeManager.m_score y) (PineconeManager.m_score x)) eqn:Hle;
    [reflexivity |].
  rewrite (filter_cons _ y), IH, !(filter_cons _ x), (filter_cons _ y).
  destruct (decide (scored q y)) as [Hy | Hy];
    destruct (decide (scored q x)) as [Hx | Hx]; try reflexivity.
  exfalso. unfold scored in Hx, Hy.
  apply Qeq_bool_iff in Hx. apply Qeq_bool_iff in Hy.
  assert (Hyx : (PineconeManager.m_score y <= PineconeManager.m_score x)%Q)
    by (rewrite Hx, Hy; apply Qle_refl).
  apply Qle_bool_iff in Hyx. congruence.
Qed.

Lemma sort_desc_stable (q : Q) (l : list PineconeManager.Match) :
  filter (scored q) (PineconeManager.sort_desc l) = filter (scored q) l.
Proof.
  induction l as [| x r IH]; cbn [PineconeManager.sort_desc]; [reflexivity |].
  rewrite insert_desc_stable, !(filter_cons _ x), IH. reflexivity.
Qed.

Lemma filter_above (threshold : Q) (l : list PineconeManager.Match) :
  Forall (above threshold) (filter (above threshold) l).
Proof.
  induction l as [| x r IH]; [constructor |].
  rewrite filter_cons. destruct (decide (above threshold x)); [constructor |]; assumption.
Qed.

(** The matches [query] ranks, before they are turned into dictionaries. *)
Definition ranked (threshold : Q) (results : list PineconeManager.Match)
  : list PineconeManager.Match :=
  PineconeManager.sort_desc (filter (above threshold) results).

(** C3, as amended: when the remote answers with [results], [query] returns the
    matches whose score reaches the threshold, sorted by score descending, with
    matches of equal score in the order the remote gave them; it returns no
    more matches than the remote did, hence at most [top_k] when the remote
    kept to [top_k]. *)
Theorem query_filters_and_ranks (idx : PineconeManager.Index) (query_vector : list Q)
  (top_k : Z) (filters : option Metadata) (threshold : Q)
  (results : list PineconeManager.Match) :
  PineconeManager.respond idx (PineconeManager.query_kwargs query_vector top_k filters)
  = Ok results ->
  PineconeManager.query idx query_vector top_k filters threshold
  = Ok (map PineconeManager.result_of (ranked threshold results))
  /\ length (ranked threshold results) <= length results
  /\ ((Z.of_nat (length results) <= top_k)%Z ->
      (Z.of_nat (length (ranked threshold results)) <= top_k)%Z)
  /\ Forall (fun m => (threshold <= PineconeManager.m_score m)%Q)
            (ranked threshold results)
  /\ StronglySorted desc (ranked threshold results)
  /\ Permutation (filter (above threshold) results) (ranked threshold results)
  /\ (forall q, filter (scored q) (ranked threshold results)
                = filter (scored q) (filter (above threshold) results)).
Proof.
  intros Hresp.
  assert (Hlen : length (ranked threshold results) <= length results).
  { unfold ranked. rewrite <- (Permutation_length (sort_desc_perm _)).
    apply length_filter. }
  split; [| split; [exact Hlen | split; [lia | split; [| split; [| split]]]]].
  - unfold PineconeManager.query. rewrite Hresp. reflexivity.
  - unfold ranked.
    eapply Permutation_Forall; [apply sort_desc_perm |].
    eapply List.Forall_impl; [| apply filter_above].
    intros m Hm. apply Qle_bool_iff. exact Hm.
  - apply sort_desc_sorted.
  - apply sort_desc_perm.
  - intros q. apply sort_desc_stable.
Qed.

(** A remote that ranks [b] before [a] at the same score, and a weaker match
    last. *)
Definition tied_results : list PineconeManager.Match :=
  [ {| PineconeManager.m_id := "b"; PineconeManager.m_score := 0.9%Q;
       PineconeManager.m_metadata := [("location", SStr "Berlin")] |};
    {| PineconeManager.m_id := "a"; PineconeManager.m_score := 0.9%Q;
       PineconeManager.m_metadata := [("location", SStr "Berlin")] |};
    {| PineconeManager.m_id := "c"; PineconeManager.m_score := 0.5%Q;
       PineconeManager.m_metadata := [("location", SStr "Berlin")] |} ].

Definition tied_index : PineconeManager.Index :=
  {| PineconeManager.outcomes := [];
     PineconeManager.attempts := [];
     PineconeManager.committed := [];
     PineconeManager.respond := fun _ => Ok tied_results |}.

Lemma query_filters_and_ranks_witness :
  PineconeManager.query tied_index [1; 0]%Q 5 None 0.7%Q
  = Ok (map PineconeManager.result_of (ranked 0.7%Q tied_results))
  /\ length (ranked 0.7%Q tied_results) <= length tied_results
  /\ StronglySorted desc (ranked 0.7%Q tied_results).
Proof.
  destruct (query_filters_and_ranks tied_index [1; 0]%Q 5 None 0.7%Q tied_results
              eq_refl) as (Hq & Hlen & _ & _ & Hsorted & _).
  split; [exact Hq |]. split; [exact Hlen | exact Hsorted].
Defined.

(** Equal scores come in ascending order of id. *)
Definition ties_by_ascending_id (rs : list PineconeManager.QueryResult) : Prop :=
  forall (i j : nat) (a b : PineconeManager.QueryResult),
    i < j -> rs !! i = Some a -> rs !! j = Some b ->
    (PineconeManager.r_score a == PineconeManager.r_score b)%Q ->
    String.leb (PineconeManager.r_id a) (PineconeManager.r_id b) = true.

(** C3, as stated, fails: the remote returns [b] before [a], both at 0.9, and
    [query] returns them in that order, not by ascending id. *)
Lemma query_ties_counterexample :
  exists rs,
    PineconeManager.query tied_index [1; 0]%Q 5 None 0.7%Q = Ok rs
    /\ map PineconeManager.r_id rs = ["b"; "a"]
    /\ ~ ties_by_ascending_id rs.
Proof.
  eexists. split; [reflexivity |]. split; [reflexivity |].
  intros Hties.
  specialize (Hties 0 1 _ _ ltac:(lia) eq_refl eq_refl ltac:(reflexivity)).
  vm_compute in Hties. discriminate Hties.
Qed.

(** * Further properties *)

(** ** Whitespace: [strip], [split] and [re.sub] *)

Fixpoint all_space (s : string) : bool :=
  match s with
  | EmptyString => true
  | String c r => isspace c && all_space r
  end.

Fixpoint no_space (s : string) : bool :=
  match s with
  | EmptyString => true
  | String c r => negb (isspace c) && no_space r
  end.

(** The string is empty or starts with a character that is not whitespace. *)
Definition head_not_space (s : string) : bool :=
  match s with
  | EmptyString => true
  | String c _ => negb (isspace c)
  end.

(** A word as [split] produces them: not empty, without whitespace. *)
Definition clean_word (w : string) : Prop := truthy w = true /\ no_space w = true.

Lemma sapp_assoc (a b c : string) : (a +:+ b) +:+ c = a +:+ (b +:+ c).
Proof.
  induction a as [| x a IH]; [reflexivity |].
  change (String x ((a +:+ b) +:+ c) = String x (a +:+ (b +:+ c))).
  rewrite IH. reflexivity.
Qed.

Lemma sapp_nil_r (a : string) : a +:+ "" = a.
Proof.
  induction a as [| x a IH]; [reflexivity |].
  change (String x (a +:+ "") = String x a). rewrite IH. reflexivity.
Qed.

Lemma rev_string_onto_app (s acc : string) :
  rev_string_onto s acc = rev_string s +:+ acc.
Proof.
  unfold rev_string. revert acc. induction s as [| c s IH]; intros acc.
  - reflexivity.
  - cbn [rev_string_onto].
    rewrite (IH (String c acc)), (IH (String c "")), sapp_assoc. reflexivity.
Qed.

Lemma rev_string_cons (c : ascii) (s : string) :
  rev_string (String c s) = rev_string s +:+ String c "".
Proof. unfold rev_string at 1. cbn. apply rev_string_onto_app. Qed.

Lemma rev_string_snoc (s : string) (c : ascii) :
  rev_string (s +:+ String c "") = String c (rev_string s).
Proof.
  induction s as [| a s IH].
  - reflexivity.
  - change (rev_string (String a (s +:+ String c "")) = String c (rev_string (String a s))).
    rewrite !rev_string_cons, IH. reflexivity.
Qed.

Lemma all_space_app (a b : string) : all_space (a +:+ b) = all_space a && all_space b.
Proof.
  induction a as [| x a IH]; [reflexivity |].
  change (isspace x && all_space (a +:+ b) = isspace x && all_space a && all_space b).
  rewrite IH, andb_assoc. reflexivity.
Qed.

Lemma all_space_rev (s : string) : all_space (rev_string s) = all_space s.
Proof.
  induction s as [| c s IH]; [reflexivity |].
  rewrite rev_string_cons, all_space_app, IH. cbn.
  rewrite andb_true_r. apply andb_comm.
Qed.

Lemma lstrip_all_space (s : string) : all_space s = true -> lstrip s = "".
Proof.
  induction s as [| c s IH]; cbn; [reflexivity |].
  intros H. apply andb_true_iff in H as [Hc Hs]. rewrite Hc. apply IH, Hs.
Qed.

Lemma lstrip_snoc (s : string) (c : ascii) :
  lstrip (s +:+ String c "")
  = if all_space s then (if isspace c then "" else String c "")
    else lstrip s +:+ String c "".
Proof.
  induction s as [| a s IH].
  - change (lstrip (String c "") = if isspace c then "" else String c "").
    cbn [lstrip]. destruct (isspace c); reflexivity.
  - change (String a s +:+ String c "") with (String a (s +:+ String c "")).
    cbn [lstrip all_space].
    destruct (isspace a); cbn [andb]; [exact IH | reflexivity].
Qed.

(** [rstrip], read from the front of the string. *)
Lemma rstrip_cons (c : ascii) (r : string) :
  rstrip (String c r)
  = if all_space r && isspace c then "" else String c (rstrip r).
Proof.
  unfold rstrip. rewrite rev_string_cons, lstrip_snoc, all_space_rev.
  destruct (all_space r) eqn:Hr; cbn [andb].
  - destruct (isspace c); [reflexivity |].
    rewrite lstrip_all_space by (rewrite all_space_rev; exact Hr). reflexivity.
  - apply rev_string_snoc.
Qed.

Lemma rstrip_all_space_inv (s : string) :
  all_space (rstrip s) = true -> all_space s = true.
Proof.
  induction s as [| c r IH]; [reflexivity |].
  rewrite rstrip_cons.
  destruct (all_space r && isspace c) eqn:Hcase.
  - intros _. apply andb_true_iff in Hcase as [Hr Hc]. cbn. rewrite Hr, Hc. reflexivity.
  - cbn. intros H. apply andb_true_iff in H as [Hc Hr].
    rewrite (IH Hr), Hc in Hcase. discriminate Hcase.
Qed.

Lemma rstrip_idem (s : string) : rstrip (rstrip s) = rstrip s.
Proof.
  induction s as [| c r IH]; [reflexivity |].
  rewrite rstrip_cons.
  destruct (all_space r && isspace c) eqn:Hcase; [reflexivity |].
  rewrite rstrip_cons, IH.
  destruct (all_space (rstrip r) && isspace c) eqn:Hcase'; [| reflexivity].
  apply andb_true_iff in Hcase' as [Hr Hc].
  rewrite (rstrip_all_space_inv r Hr), Hc in Hcase. discriminate Hcase.
Qed.

Lemma lstrip_head (s : string) : head_not_space (lstrip s) = true.
Proof.
  induction s as [| c r IH]; cbn; [reflexivity |].
  destruct (isspace c) eqn:Hc; [exact IH |]. cbn. rewrite Hc. reflexivity.
Qed.

Lemma lstrip_fix (s : string) : head_not_space s = true -> lstrip s = s.
Proof.
  destruct s as [| c r]; cbn; [reflexivity |].
  intros H. apply negb_true_iff in H. rewrite H. reflexivity.
Qed.

Lemma rstrip_head (s : string) :
  head_not_space s = true -> head_not_space (rstrip s) = true.
Proof.
  destruct s as [| c r]; [reflexivity |].
  rewrite rstrip_cons. destruct (all_space r && isspace c); [reflexivity |].
  cbn. intros H. exact H.
Qed.

(** X1: the response filter is idempotent, and its result is left unchanged by
    trimming on either side: it neither starts nor ends with whitespace. *)
Theorem filter_response_trimmed (response : string) :
  let filtered := RAGProcessor._filter_response response in
  RAGProcessor._filter_response filtered = filtered
  /\ lstrip filtered = filtered
  /\ rstrip filtered = filtered
  /\ head_not_space filtered = true
  /\ head_not_space (rev_string filtered) = true.
Proof.
  cbn zeta. unfold RAGProcessor._filter_response, strip.
  assert (Hhead : head_not_space (rstrip (lstrip response)) = true)
    by apply rstrip_head, lstrip_head.
  assert (Hl : lstrip (rstrip (lstrip response)) = rstrip (lstrip response))
    by apply lstrip_fix, Hhead.
  split; [rewrite Hl; apply rstrip_idem |].
  split; [exact Hl |]. split; [apply rstrip_idem |]. split; [exact Hhead |].
  pose proof (rstrip_idem (lstrip response)) as Hfix.
  unfold rstrip at 1 in Hfix.
  set (x := rstrip (lstrip response)) in *.
  assert (Hrev : rev_string x = rev_string (rev_string (lstrip (rev_string x))))
    by (rewrite Hfix; reflexivity).
  clear Hfix.
  assert (Hinv : forall s, rev_string (rev_string s) = s).
  { induction s as [| c s IH]; [reflexivity |].
    rewrite rev_string_cons, rev_string_snoc, IH. reflexivity. }
  rewrite Hinv in Hrev. rewrite Hrev. apply lstrip_head.
Qed.

Lemma split_go_cons (c : ascii) (r : string) :
  split_go (String c r)
  = if isspace c then ("", cons_word (fst (split_go r)) (snd (split_go r)))
    else (String c (fst (split_go r)), snd (split_go r)).
Proof. cbn [split_go]. destruct (split_go r) as [w ws]. reflexivity. Qed.

Lemma split_unfold (s : string) :
  split s = cons_word (fst (split_go s)) (snd (split_go s)).
Proof. unfold split. destruct (split_go s) as [w ws]. reflexivity. Qed.

Lemma split_space (c : ascii) (r : string) :
  isspace c = true -> split (String c r) = split r.
Proof.
  intros Hc. rewrite !split_unfold, split_go_cons, Hc. reflexivity.
Qed.

Lemma split_lstrip (s : string) : split (lstrip s) = split s.
Proof.
  induction s as [| c r IH]; cbn [lstrip]; [reflexivity |].
  destruct (isspace c) eqn:Hc; [| reflexivity].
  rewrite IH, (split_space c r Hc). reflexivity.
Qed.

Lemma split_go_all_space (s : string) : all_space s = true -> split_go s = ("", []).
Proof.
  induction s as [| c r IH]; [reflexivity |].
  cbn [all_space]. intros H. apply andb_true_iff in H as [Hc Hr].
  rewrite split_go_cons, Hc, (IH Hr). reflexivity.
Qed.

Lemma split_go_rstrip (s : string) : split_go (rstrip s) = split_go s.
Proof.
  induction s as [| c r IH]; [reflexivity |].
  rewrite rstrip_cons. destruct (all_space r && isspace c) eqn:Hcase.
  - apply andb_true_iff in Hcase as [Hr Hc].
    rewrite (split_go_all_space (String c r)) by (cbn; rewrite Hc, Hr; reflexivity).
    reflexivity.
  - rewrite !split_go_cons, IH. reflexivity.
Qed.

Lemma split_strip (s : string) : split (strip s) = split s.
Proof.
  unfold strip. rewrite split_unfold, split_go_rstrip, <- split_unfold.
  apply split_lstrip.
Qed.

Lemma split_sub_ws_go (s : string) :
  split_go (sub_ws_go false s) = split_go s
  /\ split (sub_ws_go true s) = split s.
Proof.
  induction s as [| c r [IHf IHt]]; [split; reflexivity |].
  cbn [sub_ws_go]. destruct (isspace c) eqn:Hc.
  - split.
    + rewrite !split_go_cons. cbn [isspace]. 
      replace (isspace " ") with true by reflexivity. rewrite Hc.
      rewrite <- !split_unfold, IHt. reflexivity.
    + rewrite IHt, (split_space c r Hc). reflexivity.
  - assert (Hgo : split_go (String c (sub_ws_go false r)) = split_go (String c r))
      by (rewrite !split_go_cons, IHf; reflexivity).
    split; [exact Hgo |]. rewrite !split_unfold, Hgo. reflexivity.
Qed.

Lemma clean_text_words (text : string) :
  split (DataProcessor.clean_text text) = split text.
Proof.
  unfold DataProcessor.clean_text, sub_ws.
  rewrite split_strip, split_unfold.
  rewrite (proj1 (split_sub_ws_go text)). symmetry. apply split_unfold.
Qed.

Lemma cons_word_clean (w : string) (ws : list string) :
  no_space w = true -> Forall clean_word ws -> Forall clean_word (cons_word w ws).
Proof.
  intros Hw Hws. destruct w as [| c w]; [exact Hws |].
  constructor; [split; [reflexivity | exact Hw] | exact Hws].
Qed.

Lemma split_go_clean (s : string) :
  no_space (fst (split_go s)) = true /\ Forall clean_word (snd (split_go s)).
Proof.
  induction s as [| c r [IHw IHws]]; [split; [reflexivity | constructor] |].
  rewrite split_go_cons. destruct (isspace c) eqn:Hc; cbn [fst snd].
  - split; [reflexivity | apply cons_word_clean; assumption].
  - split; [cbn; rewrite Hc, IHw; reflexivity | exact IHws].
Qed.

(** Every word [split] returns is non-empty and free of whitespace. *)
Lemma split_clean (s : string) : Forall clean_word (split s).
Proof.
  rewrite split_unfold. destruct (split_go_clean s). apply cons_word_clean; assumption.
Qed.

Lemma split_go_word_app (w s : string) :
  no_space w = true ->
  split_go (w +:+ s) = (w +:+ fst (split_go s), snd (split_go s)).
Proof.
  induction w as [| c w IH]; intros Hw.
  - change ("" +:+ s) with s. change ("" +:+ fst (split_go s)) with (fst (split_go s)).
    destruct (split_go s); reflexivity.
  - cbn [no_space] in Hw. apply andb_true_iff in Hw as [Hc Hw].
    apply negb_true_iff in Hc.
    change (String c w +:+ s) with (String c (w +:+ s)).
    rewrite split_go_cons, Hc, (IH Hw). reflexivity.
Qed.

(** Splitting undoes joining: words that are non-empty and free of
    whitespace, joined by single spaces, split back into the same words. *)
Lemma split_join_round_trip (words : list string) :
  Forall clean_word words -> split (join " " words) = words.
Proof.
  induction 1 as [| w ws [Hne Hw] Hws IH]; [reflexivity |].
  destruct ws as [| w2 rest].
  - cbn [join]. rewrite split_unfold.
    rewrite <- (sapp_nil_r w) at 1 2. rewrite (split_go_word_app w "" Hw).
    cbn [split_go fst snd]. rewrite sapp_nil_r.
    destruct w; [discriminate Hne | reflexivity].
  - change (join " " (w :: w2 :: rest)) with (w +:+ " " +:+ join " " (w2 :: rest)).
    rewrite split_unfold, (split_go_word_app w _ Hw).
    change (" " +:+ join " " (w2 :: rest)) with (String " " (join " " (w2 :: rest))).
    rewrite split_go_cons. replace (isspace " ") with true by reflexivity.
    cbn [fst snd]. rewrite <- split_unfold, IH, sapp_nil_r.
    destruct w; [discriminate Hne | reflexivity].
Qed.


(** ** Chunking and the processed records *)

Lemma slice_clean (i j : nat) (words : list string) :
  Forall clean_word words -> Forall clean_word (slice i j words).
Proof. intros H. unfold slice. apply Forall_take, Forall_drop, H. Qed.

Lemma join_truthy (w : string) (ws : list string) :
  truthy w = true -> truthy (join " " (w :: ws)) = true.
Proof.
  intros Hw. destruct w as [| c w]; [discriminate Hw |].
  destruct ws as [| w2 rest]; reflexivity.
Qed.

Lemma slice_nonempty {A : Type} (i n : nat) (l : list A) :
  0 < n -> i < length l -> 0 < length (slice i (i + n) l) <= n.
Proof.
  intros Hn Hi. unfold slice. rewrite length_firstn, length_skipn. lia.
Qed.

Lemma chunk_text_spec (text : string) :
  let chunks := DataProcessor.chunk_text text in
  concat (map split chunks) = split text
  /\ Forall (fun chunk => truthy chunk = true
                          /\ 0 < length (split chunk) <= DataProcessor.CHUNK_SIZE) chunks
  /\ length chunks
     = (length (split text) + DataProcessor.CHUNK_SIZE - 1) / DataProcessor.CHUNK_SIZE.
Proof.
  cbn zeta. unfold DataProcessor.chunk_text.
  set (n := DataProcessor.CHUNK_SIZE).
  assert (Hn : 0 < n) by (unfold n, DataProcessor.CHUNK_SIZE; lia).
  set (words := split text).
  assert (Hclean : Forall clean_word words) by apply split_clean.
  assert (Hsplit : forall i, split (join " " (slice i (i + n) words)) = slice i (i + n) words).
  { intros i. apply split_join_round_trip, slice_clean, Hclean. }
  split; [| split].
  - rewrite map_map. rewrite (map_ext _ _ Hsplit).
    unfold range_step. rewrite slices_concat.
    apply firstn_all2, range_step_covers, Hn.
  - apply List.Forall_forall. intros chunk Hin.
    apply in_map_iff in Hin as (i & <- & Hi).
    apply (range_step_below _ _ _ Hn) in Hi.
    rewrite Hsplit. split; [| apply slice_nonempty; assumption].
    pose proof (slice_nonempty i n words Hn Hi) as [Hpos _].
    pose proof (slice_clean i (i + n) words Hclean) as Hsl.
    destruct (slice i (i + n) words) as [| w ws]; [cbn in Hpos; lia |].
    apply join_truthy. apply Forall_inv in Hsl. apply Hsl.
  - rewrite length_map. unfold range_step. rewrite length_map, length_seq. reflexivity.
Qed.

(** X3: chunking loses no word: the chunks, split again, give the words of the
    text in order; every chunk is non-empty and has at most [CHUNK_SIZE] words;
    there are as many chunks as the word count divided by [CHUNK_SIZE], rounded
    up. *)
Theorem chunk_text_keeps_words (text : string) :
  let chunks := DataProcessor.chunk_text text in
  concat (map split chunks) = split text
  /\ Forall (fun chunk => truthy chunk = true
                          /\ 0 < length (split chunk) <= DataProcessor.CHUNK_SIZE) chunks
  /\ length chunks
     = (length (split text) + DataProcessor.CHUNK_SIZE - 1) / DataProcessor.CHUNK_SIZE.
Proof. exact (chunk_text_spec text). Qed.

(** X4: [process] loses no word and adds none: the texts of the records it
    returns, split again, are the words of the scraped texts, document after
    document. *)
Theorem process_keeps_words (documents : list DataProcessor.Scraped) :
  concat (map (fun p => split (DataProcessor.p_text p)) (DataProcessor.process documents))
  = concat (map (fun doc => split (DataProcessor.text doc)) documents).
Proof.
  induction documents as [| doc rest IH]; [reflexivity |].
  unfold DataProcessor.process in *. cbn [flat_map map concat].
  rewrite map_app, concat_app, IH. f_equal.
  rewrite map_map. cbn [DataProcessor.p_text].
  rewrite <- (map_map (fun chunk => chunk) split), map_id.
  destruct (chunk_text_spec (DataProcessor.clean_text (DataProcessor.text doc)))
    as [Hcat _].
  rewrite Hcat. apply clean_text_words.
Qed.

Lemma process_texts_truthy (documents : list DataProcessor.Scraped) :
  Forall (fun p => truthy (DataProcessor.p_text p) = true)
         (DataProcessor.process documents).
Proof.
  induction documents as [| doc rest IH]; [constructor |].
  unfold DataProcessor.process in *. cbn [flat_map].
  apply Forall_app. split; [| exact IH].
  apply List.Forall_forall. intros p Hin.
  apply in_map_iff in Hin as (chunk & <- & Hchunk).
  destruct (chunk_text_spec (DataProcessor.clean_text (DataProcessor.text doc)))
    as (_ & Hall & _).
  cbn zeta in Hall. rewrite List.Forall_forall in Hall.
  apply (Hall chunk Hchunk).
Qed.

Lemma validate_doc_to_json (i : nat) (p : DataProcessor.Processed) :
  truthy (DataProcessor.p_text p) = true ->
  KnowledgeBaseBuilder.validate_doc i (DataProcessor.to_json p) = Ok tt.
Proof.
  intros Htext. unfold DataProcessor.to_json.
  erewrite validate_doc_record; cycle 1.
  - split; [eexists; split; [reflexivity | exact Htext] | reflexivity].
  - reflexivity.
Qed.

Lemma validate_from_all (i : nat) (docs : list KnowledgeBaseBuilder.JSON) :
  (forall j doc, docs !! j = Some doc ->
                 KnowledgeBaseBuilder.validate_doc (i + j) doc = Ok tt) ->
  KnowledgeBaseBuilder.validate_from i docs = Ok tt.
Proof.
  revert i. induction docs as [| d rest IH]; intros i Hall; [reflexivity |].
  cbn [KnowledgeBaseBuilder.validate_from].
  pose proof (Hall 0 d eq_refl) as Hd. rewrite Nat.add_0_r in Hd. rewrite Hd.
  cbn [bind]. apply IH. intros j doc Hj.
  replace (S i + j) with (i + S j) by lia. apply Hall. exact Hj.
Qed.

Lemma process_validates (documents : list DataProcessor.Scraped) :
  KnowledgeBaseBuilder.validate_data
    (map DataProcessor.to_json (DataProcessor.process documents)) = Ok tt.
Proof.
  unfold KnowledgeBaseBuilder.validate_data. apply validate_from_all.
  intros j doc Hj. rewrite list_lookup_fmap in Hj.
  destruct (DataProcessor.process documents !! j) as [p |] eqn:Hp; [| discriminate Hj].
  cbn in Hj. injection Hj as <-.
  apply validate_doc_to_json.
  pose proof (process_texts_truthy documents) as Hall.
  rewrite Forall_lookup in Hall. apply (Hall j p Hp).
Qed.

(** X5: the validation step accepts whatever the processing step produces:
    for any scraped documents, the records of [process], written out and read
    back, pass [validate_data]. *)
Theorem processed_records_pass_validation (documents : list DataProcessor.Scraped) :
  KnowledgeBaseBuilder.validate_data
    (map DataProcessor.to_json (DataProcessor.process documents)) = Ok tt.
Proof. exact (process_validates documents). Qed.

(** ** Embeddings and the build pipeline *)

Lemma lookup_set_member_eq (key : string) (value : KnowledgeBaseBuilder.JSON)
  (members : list (string * KnowledgeBaseBuilder.JSON)) :
  KnowledgeBaseBuilder.lookup_member key
    (EmbeddingsGenerator.set_member key value members) = Some value.
Proof.
  induction members as [| [k v] rest IH]; cbn.
  - rewrite String.eqb_refl. reflexivity.
  - destruct (String.eqb k key) eqn:Hk; cbn; rewrite Hk; [reflexivity | exact IH].
Qed.

Lemma lookup_set_member_ne (key other : string) (value : KnowledgeBaseBuilder.JSON)
  (members : list (string * KnowledgeBaseBuilder.JSON)) :
  key <> other ->
  KnowledgeBaseBuilder.lookup_member other
    (EmbeddingsGenerator.set_member key value members)
  = KnowledgeBaseBuilder.lookup_member other members.
Proof.
  intros Hne. induction members as [| [k v] rest IH]; cbn.
  - destruct (String.eqb key other) eqn:Hk; [| reflexivity].
    apply String.eqb_eq in Hk. contradiction.
  - destruct (String.eqb k key) eqn:Hk; cbn.
    + apply String.eqb_eq in Hk. subst k.
      destruct (String.eqb key other) eqn:Hko; [| reflexivity].
      apply String.eqb_eq in Hko. contradiction.
    + destruct (String.eqb k other); [reflexivity | exact IH].
Qed.

(** A document that passes the checks of [validate_data] is an object with a
    [text] member. *)
Lemma validate_doc_object (i : nat) (doc : KnowledgeBaseBuilder.JSON) :
  KnowledgeBaseBuilder.validate_doc i doc = Ok tt ->
  exists members t,
    doc = KnowledgeBaseBuilder.JObj members
    /\ KnowledgeBaseBuilder.lookup_member "text" members = Some t.
Proof.
  unfold KnowledgeBaseBuilder.validate_doc, KnowledgeBaseBuilder.assert.
  destruct doc as [| b | q | s | items | members]; cbn [KnowledgeBaseBuilder.py_in bind];
    try discriminate.
  - destruct (contains "text" s); cbn; discriminate.
  - destruct (existsb (KnowledgeBaseBuilder.is_str "text") items); cbn; discriminate.
  - intros H. destruct (KnowledgeBaseBuilder.lookup_member "text" members) as [t |] eqn:Ht.
    + exists members, t. split; [reflexivity | exact Ht].
    + cbn in H. discriminate H.
Qed.

(** The checks of [validate_data] look at the [text] and [metadata] members
    only. *)
Lemma validate_doc_depends (i : nat)
  (m m' : list (string * KnowledgeBaseBuilder.JSON)) :
  KnowledgeBaseBuilder.lookup_member "text" m'
  = KnowledgeBaseBuilder.lookup_member "text" m ->
  KnowledgeBaseBuilder.lookup_member "metadata" m'
  = KnowledgeBaseBuilder.lookup_member "metadata" m ->
  KnowledgeBaseBuilder.validate_doc i (KnowledgeBaseBuilder.JObj m')
  = KnowledgeBaseBuilder.validate_doc i (KnowledgeBaseBuilder.JObj m).
Proof.
  intros Htext Hmeta.
  unfold KnowledgeBaseBuilder.validate_doc, KnowledgeBaseBuilder.py_in,
    KnowledgeBaseBuilder.py_getitem.
  rewrite Htext, Hmeta. reflexivity.
Qed.

Lemma texts_of_valid (i : nat) (docs : list KnowledgeBaseBuilder.JSON) :
  KnowledgeBaseBuilder.validate_from i docs = Ok tt ->
  exists texts, EmbeddingsGenerator.texts_of docs = Ok texts
                /\ length texts = length docs.
Proof.
  revert i. induction docs as [| d rest IH]; intros i Hvalid.
  - exists []. split; reflexivity.
  - cbn [KnowledgeBaseBuilder.validate_from] in Hvalid.
    destruct (KnowledgeBaseBuilder.validate_doc i d) as [[] | e] eqn:Hd;
      [| discriminate Hvalid].
    cbn [bind] in Hvalid.
    destruct (validate_doc_object i d Hd) as (members & t & -> & Ht).
    destruct (IH (S i) Hvalid) as (texts & Htexts & Hlen).
    exists (t :: texts). cbn [EmbeddingsGenerator.texts_of KnowledgeBaseBuilder.py_getitem].
    rewrite Ht. cbn [bind]. rewrite Htexts. cbn. rewrite Hlen. split; reflexivity.
Qed.

Lemma attach_from_valid (i : nat) (embeddings : list (list Q))
  (docs : list KnowledgeBaseBuilder.JSON) :
  KnowledgeBaseBuilder.validate_from i docs = Ok tt ->
  i + length docs <= length embeddings ->
  exists docs',
    EmbeddingsGenerator.attach_from i embeddings docs = Ok docs'
    /\ length docs' = length docs
    /\ KnowledgeBaseBuilder.validate_embeddings_from i docs' = Ok tt
    /\ KnowledgeBaseBuilder.validate_from i docs' = Ok tt.
Proof.
  revert i. induction docs as [| d rest IH]; intros i Hvalid Hlen.
  - exists []. repeat split; reflexivity.
  - cbn [KnowledgeBaseBuilder.validate_from] in Hvalid.
    destruct (KnowledgeBaseBuilder.validate_doc i d) as [[] | e] eqn:Hd;
      [| discriminate Hvalid].
    cbn [bind] in Hvalid. cbn [length] in Hlen.
    destruct (validate_doc_object i d Hd) as (members & t & -> & Ht).
    destruct (IH (S i) Hvalid ltac:(lia)) as (rest' & Hrest & Hlen' & Hemb & Hval).
    destruct (lookup_lt_is_Some_2 embeddings i ltac:(lia)) as [v Hv].
    eexists. cbn [EmbeddingsGenerator.attach_from].
    unfold EmbeddingsGenerator.embedding_at. rewrite Hv.
    cbn [bind EmbeddingsGenerator.py_setitem]. rewrite Hrest. cbn [bind].
    split; [reflexivity |]. split; [cbn; rewrite Hlen'; reflexivity |]. split.
    + cbn [KnowledgeBaseBuilder.validate_embeddings_from].
      unfold KnowledgeBaseBuilder.validate_embedding_doc, KnowledgeBaseBuilder.py_in,
        KnowledgeBaseBuilder.py_getitem, KnowledgeBaseBuilder.assert.
      rewrite lookup_set_member_eq. cbn. exact Hemb.
    + cbn [KnowledgeBaseBuilder.validate_from].
      rewrite (validate_doc_depends i members).
      * rewrite Hd. cbn [bind]. exact Hval.
      * apply lookup_set_member_ne. discriminate.
      * apply lookup_set_member_ne. discriminate.
Qed.

Lemma generate_embeddings_valid
  (encode : list KnowledgeBaseBuilder.JSON -> list (list Q))
  (docs : list KnowledgeBaseBuilder.JSON) :
  (forall texts, length (encode texts) = length texts) ->
  KnowledgeBaseBuilder.validate_data docs = Ok tt ->
  exists docs',
    EmbeddingsGenerator.generate_embeddings encode docs = Ok docs'
    /\ length docs' = length docs
    /\ KnowledgeBaseBuilder.validate_embeddings docs' = Ok tt
    /\ KnowledgeBaseBuilder.validate_data docs' = Ok tt.
Proof.
  intros Hencode Hvalid. unfold KnowledgeBaseBuilder.validate_data in Hvalid.
  destruct (texts_of_valid 0 docs Hvalid) as (texts & Htexts & Hlen).
  unfold EmbeddingsGenerator.generate_embeddings. rewrite Htexts. cbn [bind].
  apply attach_from_valid; [exact Hvalid |].
  rewrite Hencode, Hlen. lia.
Qed.

(** X6: validated documents always get their embeddings: when the documents
    pass [validate_data] and the encoder returns one vector per text,
    [generate_embeddings] returns as many documents, which pass
    [validate_embeddings] and still pass [validate_data]. *)
Theorem embeddings_attach_to_valid_docs
  (encode : list KnowledgeBaseBuilder.JSON -> list (list Q))
  (docs : list KnowledgeBaseBuilder.JSON) :
  (forall texts, length (encode texts) = length texts) ->
  KnowledgeBaseBuilder.validate_data docs = Ok tt ->
  exists docs',
    EmbeddingsGenerator.generate_embeddings encode docs = Ok docs'
    /\ length docs' = length docs
    /\ KnowledgeBaseBuilder.validate_embeddings docs' = Ok tt
    /\ KnowledgeBaseBuilder.validate_data docs' = Ok tt.
Proof. exact (generate_embeddings_valid encode docs). Qed.

(** An encoder that returns the vector [0, 1] for every text. *)
Definition constant_encoder (texts : list KnowledgeBaseBuilder.JSON) : list (list Q) :=
  map (fun _ => [0; 1]%Q) texts.

Lemma embeddings_attach_to_valid_docs_witness :
  exists docs',
    EmbeddingsGenerator.generate_embeddings constant_encoder
      [kb_record "A solar powered hotel." full_metadata] = Ok docs'
    /\ length docs' = 1
    /\ KnowledgeBaseBuilder.validate_embeddings docs' = Ok tt
    /\ KnowledgeBaseBuilder.validate_data docs' = Ok tt.
Proof.
  apply (embeddings_attach_to_valid_docs constant_encoder
           [kb_record "A solar powered hotel." full_metadata]).
  - intros texts. unfold constant_encoder. apply length_map.
  - reflexivity.
Defined.

(** X7: the build never stops at a validation: for any scraped documents, when the
    encoder returns one vector per text, [build] returns one document with an
    embedding per processed record. *)
Theorem build_succeeds (scraped : list DataProcessor.Scraped)
  (encode : list KnowledgeBaseBuilder.JSON -> list (list Q)) :
  (forall texts, length (encode texts) = length texts) ->
  exists docs,
    Build.build scraped encode = Ok docs
    /\ length docs = length (DataProcessor.process scraped)
    /\ KnowledgeBaseBuilder.validate_embeddings docs = Ok tt.
Proof.
  intros Hencode. unfold Build.build.
  rewrite process_validates. cbn [bind].
  destruct (generate_embeddings_valid encode _ Hencode
              (process_validates scraped))
    as (docs' & Hgen & Hlen & Hemb & _).
  exists docs'. rewrite Hgen. cbn [bind]. rewrite Hemb. cbn [bind].
  split; [reflexivity |]. split; [| reflexivity].
  rewrite Hlen. apply length_map.
Qed.

Lemma build_succeeds_witness :
  exists docs,
    Build.build [ {| DataProcessor.text := "  An eco   hotel in Berlin. ";
                     DataProcessor.source := "https://www.example.com/eco-hotel" |} ]
                constant_encoder = Ok docs
    /\ length docs
       = length (DataProcessor.process
                   [ {| DataProcessor.text := "  An eco   hotel in Berlin. ";
                        DataProcessor.source := "https://www.example.com/eco-hotel" |} ])
    /\ KnowledgeBaseBuilder.validate_embeddings docs = Ok tt.
Proof.
  apply (build_succeeds _ constant_encoder).
  intros texts. unfold constant_encoder. apply length_map.
Defined.

(** ** Runs of [RAGProcessor.ask] *)

(** X8: a non-empty cached answer is never lost or overwritten: whatever requests
    come in between, streaming or not, failing or not, a later request for the
    same question is served that answer from the cache and changes nothing. *)
Theorem cached_answer_survives (E : RAGProcessor.Env) (s : RAGProcessor.State)
  (reqs : list (string * bool)) (q a : string) (stream : bool) :
  RAGProcessor.cache s !! q = Some a ->
  truthy a = true ->
  let s' := snd (run_asks E s reqs) in
  RAGProcessor.cache s' !! q = Some a
  /\ RAGProcessor.ask E s' q stream
     = ({| RAGProcessor.yielded := [];
           RAGProcessor.returned := Ok (Some (hit_reply a)) |}, s').
Proof.
  intros Hq Ha. cbn zeta.
  assert (Hkept : RAGProcessor.cache (snd (run_asks E s reqs)) !! q = Some a).
  { revert s Hq. induction reqs as [| [q1 st1] rest IH]; intros s Hq; [exact Hq |].
    rewrite run_asks_cons. cbn [snd]. apply IH.
    apply ask_keeps_nonempty_entry; assumption. }
  split; [exact Hkept |].
  apply ask_hit. unfold RAGProcessor._cache_get. rewrite Hkept.
  apply is_hit_truthy, Ha.
Qed.

Lemma cached_answer_survives_witness :
  let s := snd (RAGProcessor.ask demo_env RAGProcessor.init "Is the train greener?" false) in
  let s' := snd (run_asks demo_env s [("Eco hotels", false); ("Where to go?", true)]) in
  RAGProcessor.cache s' !! "Is the train greener?"
  = Some "Take the train: it is the eco choice."
  /\ RAGProcessor.ask demo_env s' "Is the train greener?" false
     = ({| RAGProcessor.yielded := [];
           RAGProcessor.returned :=
             Ok (Some (hit_reply "Take the train: it is the eco choice.")) |}, s').
Proof.
  apply (cached_answer_survives demo_env
           (snd (RAGProcessor.ask demo_env RAGProcessor.init "Is the train greener?" false))
           [("Eco hotels", false); ("Where to go?", true)]
           "Is the train greener?" "Take the train: it is the eco choice." false).
  - reflexivity.
  - reflexivity.
Defined.

(** X9: a request that ends with an exception leaves no trace in the cache, the
    statistics or the memory. *)
Theorem failed_ask_writes_nothing (E : RAGProcessor.Env) (s : RAGProcessor.State)
  (q : string) (stream : bool) (e : Exn) :
  RAGProcessor.returned (fst (RAGProcessor.ask E s q stream)) = Raise e ->
  let s' := snd (RAGProcessor.ask E s q stream) in
  RAGProcessor.cache s' = RAGProcessor.cache s
  /\ RAGProcessor.token_usage s' = RAGProcessor.token_usage s
  /\ RAGProcessor.response_times s' = RAGProcessor.response_times s
  /\ RAGProcessor.memory s' = RAGProcessor.memory s.
Proof.
  intros Hraise. cbn zeta.
  destruct (ask_step E s q stream) as (Hmem & Htok & Htimes & _ & Hfail).
  destruct (Hfail e Hraise) as [Hcache Hnil].
  rewrite Htok, Htimes, Hnil, app_nil_r. unfold tokens_of. rewrite Hraise.
  repeat split; [exact Hcache | lia | exact Hmem].
Qed.

Lemma failed_ask_writes_nothing_witness :
  let s' := snd (RAGProcessor.ask retriever_down RAGProcessor.init "Eco hotels" false) in
  RAGProcessor.cache s' = RAGProcessor.cache RAGProcessor.init
  /\ RAGProcessor.token_usage s' = RAGProcessor.token_usage RAGProcessor.init
  /\ RAGProcessor.response_times s' = RAGProcessor.response_times RAGProcessor.init
  /\ RAGProcessor.memory s' = RAGProcessor.memory RAGProcessor.init.
Proof.
  apply (failed_ask_writes_nothing retriever_down RAGProcessor.init "Eco hotels" false
           (ExternalError "connection refused")).
  reflexivity.
Defined.

Lemma run_asks_accounting (E : RAGProcessor.Env) (s : RAGProcessor.State)
  (reqs : list (string * bool)) :
  let runs := fst (run_asks E s reqs) in
  let s' := snd (run_asks E s reqs) in
  RAGProcessor.token_usage s'
  = RAGProcessor.token_usage s + list_sum (map tokens_of runs)
  /\ RAGProcessor.response_times s'
     = RAGProcessor.response_times s ++ concat (map times_of runs)
  /\ size (RAGProcessor.cache s')
     <= size (RAGProcessor.cache s) + length (concat (map times_of runs))
  /\ RAGProcessor.memory s' = RAGProcessor.memory s.
Proof.
  cbn zeta. revert s. induction reqs as [| [q st] rest IH]; intros s.
  - cbn. rewrite app_nil_r. repeat split; lia.
  - rewrite run_asks_cons. cbn [fst snd map concat].
    destruct (IH (snd (RAGProcessor.ask E s q st))) as (Htok & Htimes & Hsize & Hmem).
    destruct (ask_step E s q st) as (Hmem1 & Htok1 & Htimes1 & Hcache1 & _).
    rewrite Htok, Htimes, Hmem, Htok1, Htimes1, Hmem1.
    rewrite <- app_assoc, length_app.
    split; [simpl; lia |]. split; [reflexivity |]. split; [| reflexivity].
    destruct Hcache1 as [Hsame | (a & Hne & _ & Hins)].
    + rewrite Hsame in Hsize. lia.
    + rewrite Hins in Hsize.
      pose proof (map_size_insert q a (RAGProcessor.cache s)) as Hins_size.
      destruct (times_of (fst (RAGProcessor.ask E s q st))) as [| t ts];
        [contradiction |].
      cbn [length].
      destruct (RAGProcessor.cache s !! q); cbn in Hins_size; lia.
Qed.

(** X10: the statistics account exactly for the replies.  After any run of
    requests the token total has grown by the token counts of the replies not
    served from the cache, the recorded times are the response times of those
    replies in order, the cache has grown by at most one entry per such reply,
    the conversation memory is as it was, and [get_stats] reports that total and
    that cache size. *)
Theorem stats_account_for_replies (E : RAGProcessor.Env) (s : RAGProcessor.State)
  (reqs : list (string * bool)) :
  let runs := fst (run_asks E s reqs) in
  let s' := snd (run_asks E s reqs) in
  RAGProcessor.token_usage s'
  = RAGProcessor.token_usage s + list_sum (map tokens_of runs)
  /\ RAGProcessor.response_times s'
     = RAGProcessor.response_times s ++ concat (map times_of runs)
  /\ size (RAGProcessor.cache s')
     <= size (RAGProcessor.cache s) + length (concat (map times_of runs))
  /\ RAGProcessor.memory s' = RAGProcessor.memory s
  /\ exists st,
       RAGProcessor.get_stats s' = Ok st
       /\ RAGProcessor.total_tokens st
          = RAGProcessor.token_usage s + list_sum (map tokens_of runs)
       /\ RAGProcessor.cache_size st = size (RAGProcessor.cache s').
Proof.
  cbn zeta.
  destruct (run_asks_accounting E s reqs) as (Htok & Htimes & Hsize & Hmem).
  split; [exact Htok |]. split; [exact Htimes |]. split; [exact Hsize |].
  split; [exact Hmem |].
  destruct (get_stats_total (snd (run_asks E s reqs))) as [st Hst].
  exists st. split; [exact Hst |].
  unfold RAGProcessor.get_stats in Hst.
  destruct (match RAGProcessor.response_times (snd (run_asks E s reqs)) with
            | [] => Ok 0%Q
            | _ => _
            end) as [avg | e]; [| discriminate Hst].
  cbn in Hst. injection Hst as <-.
  cbn [RAGProcessor.total_tokens RAGProcessor.cache_size].
  split; [exact Htok | reflexivity].
Qed.

(** ** More on the vector store *)

Lemma accepted_all (outs : list bool) (n : nat) :
  Forall (fun b => b = true) outs -> accepted outs n = n.
Proof.
  revert outs. induction n as [| n IH]; intros outs Hall; [reflexivity |].
  cbn [accepted]. destruct outs as [| b rest].
  - cbn [tail]. rewrite (IH [] Hall). reflexivity.
  - inversion Hall as [| b' rest' Hb Hrest]; subst. cbn [tail].
    rewrite (IH rest Hrest). reflexivity.
Qed.

Lemma upsert_vectors_run (idx : PineconeManager.Index)
  (vectors : list PineconeManager.Vector) (batch_size : Z) :
  (0 < batch_size)%Z ->
  let bs := batches_of vectors (Z.to_nat batch_size) in
  let j := accepted (PineconeManager.outcomes idx) (length bs) in
  let run := PineconeManager.upsert_vectors idx vectors batch_size in
  PineconeManager.attempts (snd run) = PineconeManager.attempts idx ++ firstn (S j) bs
  /\ PineconeManager.committed (snd run)
     = PineconeManager.committed idx ++ firstn j bs
  /\ fst run = (if (j =? length bs)%nat then Ok tt
                else Raise (ExternalError "upsert failed")).
Proof.
  intros Hpos. cbn zeta. unfold PineconeManager.upsert_vectors.
  destruct (batch_size =? 0)%Z eqn:Hz; [lia |].
  destruct (batch_size <? 0)%Z eqn:Hneg; [lia |].
  pose proof (upsert_loop_run (range_step (length vectors) (Z.to_nat batch_size))
                vectors (Z.to_nat batch_size) idx) as Hrun.
  cbn zeta in Hrun. unfold batches_of. rewrite length_map. exact Hrun.
Qed.

Lemma batches_count (vectors : list PineconeManager.Vector) (n : nat) :
  length (batches_of vectors n) = (length vectors + n - 1) / n.
Proof.
  unfold batches_of, range_step. rewrite !length_map, length_seq. reflexivity.
Qed.

(** X11: with a remote that accepts every call, [upsert_vectors] returns normally
    after as many calls as the number of vectors divided by the batch size,
    rounded up, and what it has committed is, batch after batch, the whole list
    of vectors in order. *)
Theorem upsert_commits_everything (idx : PineconeManager.Index)
  (vectors : list PineconeManager.Vector) (batch_size : Z) :
  (0 < batch_size)%Z ->
  Forall (fun b => b = true) (PineconeManager.outcomes idx) ->
  let run := PineconeManager.upsert_vectors idx vectors batch_size in
  fst run = Ok tt
  /\ concat (PineconeManager.committed (snd run))
     = concat (PineconeManager.committed idx) ++ PineconeManager.to_upsert vectors
  /\ length (PineconeManager.attempts (snd run))
     = length (PineconeManager.attempts idx)
       + (length vectors + Z.to_nat batch_size - 1) / Z.to_nat batch_size.
Proof.
  intros Hpos Hall. cbn zeta.
  destruct (upsert_vectors_run idx vectors batch_size Hpos) as (Ha & Hc & Hr).
  cbn zeta in Ha, Hc, Hr.
  rewrite (accepted_all _ _ Hall) in Ha, Hc, Hr.
  rewrite Nat.eqb_refl in Hr.
  rewrite firstn_all in Hc. rewrite firstn_all2 in Ha by lia.
  destruct (batches_cover vectors (Z.to_nat batch_size) ltac:(lia)) as [Hcat _].
  split; [exact Hr |]. split.
  - rewrite Hc, concat_app, Hcat. reflexivity.
  - rewrite Ha, length_app, batches_count. reflexivity.
Qed.

(** Twenty vectors, as in the repository's own test of the manager. *)
Definition twenty_vectors : list PineconeManager.Vector :=
  map (fun i => {| PineconeManager.id := "vec_" +:+ pretty i;
                   PineconeManager.embedding := [inject_Z (Z.of_nat i)];
                   PineconeManager.v_metadata := [("location", SStr "Berlin")] |})
      (seq 0 20).

Definition accepting_index : PineconeManager.Index :=
  {| PineconeManager.outcomes := [];
     PineconeManager.attempts := [];
     PineconeManager.committed := [];
     PineconeManager.respond := fun _ => Ok [] |}.

Lemma upsert_commits_everything_witness :
  let run := PineconeManager.upsert_vectors accepting_index twenty_vectors 5 in
  fst run = Ok tt
  /\ concat (PineconeManager.committed (snd run))
     = PineconeManager.to_upsert twenty_vectors
  /\ length (PineconeManager.attempts (snd run)) = 4.
Proof.
  destruct (upsert_commits_everything accepting_index twenty_vectors 5
              ltac:(lia) ltac:(constructor)) as (Hr & Hc & Ha).
  cbv zeta. split; [exact Hr |]. split; [exact Hc | exact Ha].
Defined.

(** X12: [upsert_vectors] keeps no record of progress: called again after a
    failure, it starts from the first batch, so the batches the first call had
    committed are submitted and committed a second time. *)
Theorem upsert_restart_resubmits (idx : PineconeManager.Index)
  (vectors : list PineconeManager.Vector) (batch_size : Z) :
  (0 < batch_size)%Z ->
  let bs := batches_of vectors (Z.to_nat batch_size) in
  let first := snd (PineconeManager.upsert_vectors idx vectors batch_size) in
  let second := snd (PineconeManager.upsert_vectors first vectors batch_size) in
  let j1 := accepted (PineconeManager.outcomes idx) (length bs) in
  let j2 := accepted (PineconeManager.outcomes first) (length bs) in
  PineconeManager.committed second
  = PineconeManager.committed idx ++ firstn j1 bs ++ firstn j2 bs
  /\ PineconeManager.attempts second
     = PineconeManager.attempts idx ++ firstn (S j1) bs ++ firstn (S j2) bs.
Proof.
  intros Hpos. cbn zeta.
  destruct (upsert_vectors_run idx vectors batch_size Hpos) as (Ha1 & Hc1 & _).
  destruct (upsert_vectors_run
              (snd (PineconeManager.upsert_vectors idx vectors batch_size))
              vectors batch_size Hpos) as (Ha2 & Hc2 & _).
  cbn zeta in *. rewrite Hc2, Hc1, Ha2, Ha1, <- !app_assoc. split; reflexivity.
Qed.

Lemma upsert_restart_resubmits_witness :
  let first := snd (PineconeManager.upsert_vectors second_call_fails three_vectors 1) in
  let second := snd (PineconeManager.upsert_vectors first three_vectors 1) in
  let b i := PineconeManager.to_upsert (slice i (i + 1) three_vectors) in
  PineconeManager.committed second = [b 0; b 0; b 1; b 2].
Proof.
  destruct (upsert_restart_resubmits second_call_fails three_vectors 1 ltac:(lia))
    as [Hc _].
  cbv zeta. exact Hc.
Defined.

Lemma insert_desc_front (x : PineconeManager.Match) (l : list PineconeManager.Match) :
  Forall (desc x) l -> PineconeManager.insert_desc x l = x :: l.
Proof.
  intros Hall. destruct l as [| y r]; [reflexivity |].
  apply Forall_inv in Hall. unfold desc in Hall. apply Qle_bool_iff in Hall.
  cbn [PineconeManager.insert_desc]. rewrite Hall. reflexivity.
Qed.

Lemma sort_desc_sorted_id (l : list PineconeManager.Match) :
  StronglySorted desc l -> PineconeManager.sort_desc l = l.
Proof.
  induction 1 as [| x r Hs IH Hall]; [reflexivity |].
  cbn [PineconeManager.sort_desc]. rewrite IH. apply insert_desc_front, Hall.
Qed.

Lemma filter_Forall_keep {A : Type} (P Q : A -> Prop) `{forall x, Decision (P x)}
  (l : list A) : Forall Q l -> Forall Q (filter P l).
Proof.
  induction 1 as [| x r Hx Hr IH]; [constructor |].
  rewrite filter_cons. destruct (decide (P x)); [constructor |]; assumption.
Qed.

Lemma filter_sorted (P : PineconeManager.Match -> Prop) `{forall x, Decision (P x)}
  (l : list PineconeManager.Match) :
  StronglySorted desc l -> StronglySorted desc (filter P l).
Proof.
  induction 1 as [| x r Hs IH Hall]; [constructor |].
  rewrite filter_cons. destruct (decide (P x)); [| exact IH].
  constructor; [exact IH | apply filter_Forall_keep, Hall].
Qed.

Lemma filter_insert_desc (P : PineconeManager.Match -> Prop)
  `{forall x, Decision (P x)} (x : PineconeManager.Match)
  (l : list PineconeManager.Match) :
  StronglySorted desc l ->
  filter P (PineconeManager.insert_desc x l)
  = if decide (P x) then PineconeManager.insert_desc x (filter P l) else filter P l.
Proof.
  induction 1 as [| y r Hs IH Hall]; cbn [PineconeManager.insert_desc].
  - rewrite filter_cons. destruct (decide (P x)); reflexivity.
  - destruct (Qle_bool (PineconeManager.m_score y) (PineconeManager.m_score x)) eqn:Hle.
    + rewrite (filter_cons _ x). destruct (decide (P x)); [| reflexivity].
      symmetry. apply insert_desc_front.
      apply Qle_bool_iff in Hle.
      apply filter_Forall_keep. constructor; [exact Hle |].
      eapply List.Forall_impl; [| exact Hall].
      intros z Hz. unfold desc in *. eapply Qle_trans; eassumption.
    + rewrite (filter_cons _ y), IH, (filter_cons _ y).
      destruct (decide (P x)); [| reflexivity].
      destruct (decide (P y)); [| reflexivity].
      cbn [PineconeManager.insert_desc]. rewrite Hle. reflexivity.
Qed.

Lemma filter_sort_desc (P : PineconeManager.Match -> Prop)
  `{forall x, Decision (P x)} (l : list PineconeManager.Match) :
  filter P (PineconeManager.sort_desc l) = PineconeManager.sort_desc (filter P l).
Proof.
  induction l as [| x r IH]; [reflexivity |].
  cbn [PineconeManager.sort_desc].
  rewrite filter_insert_desc by apply sort_desc_sorted.
  rewrite filter_cons, IH. destruct (decide (P x)); reflexivity.
Qed.

(** X13: raising the threshold only removes matches: the result for a higher
    threshold is the result for the lower one without the matches below the
    higher threshold, in the same order. *)
Theorem query_threshold_monotone (t1 t2 : Q) (results : list PineconeManager.Match) :
  (t1 <= t2)%Q ->
  ranked t2 results = filter (above t2) (ranked t1 results).
Proof.
  intros Hle. unfold ranked. rewrite filter_sort_desc. f_equal.
  induction results as [| m r IH]; [reflexivity |].
  rewrite (filter_cons (above t2) m), (filter_cons (above t1) m).
  destruct (decide (above t2 m)) as [H2 | H2].
  - destruct (decide (above t1 m)) as [H1 | H1].
    + rewrite filter_cons. destruct (decide (above t2 m)); [| contradiction].
      rewrite IH. reflexivity.
    + exfalso. apply H1. unfold above in *. apply Qle_bool_iff.
      apply Qle_bool_iff in H2. eapply Qle_trans; eassumption.
  - destruct (decide (above t1 m)) as [H1 | H1]; [| exact IH].
    rewrite filter_cons. destruct (decide (above t2 m)); [contradiction | exact IH].
Qed.

Lemma query_threshold_monotone_witness :
  ranked 0.7%Q tied_results = filter (above 0.7%Q) (ranked 0.2%Q tied_results).
Proof.
  apply (query_threshold_monotone 0.2%Q 0.7%Q tied_results).
  vm_compute. discriminate.
Defined.

(** X14: when the remote already answers in descending order of score, [query]
    keeps that order: it returns the remote's matches that reach the threshold,
    as they came. *)
Theorem query_keeps_ranked_order (idx : PineconeManager.Index) (query_vector : list Q)
  (top_k : Z) (filters : option Metadata) (threshold : Q)
  (results : list PineconeManager.Match) :
  PineconeManager.respond idx (PineconeManager.query_kwargs query_vector top_k filters)
  = Ok results ->
  StronglySorted desc results ->
  PineconeManager.query idx query_vector top_k filters threshold
  = Ok (map PineconeManager.result_of (filter (above threshold) results)).
Proof.
  intros Hresp Hsorted. unfold PineconeManager.query. rewrite Hresp. cbn [bind].
  do 2 f_equal.
  apply (sort_desc_sorted_id (filter (above threshold) results)).
  apply filter_sorted, Hsorted.
Qed.

Definition ranked_results : list PineconeManager.Match :=
  [ {| PineconeManager.m_id := "b"; PineconeManager.m_score := 0.9%Q;
       PineconeManager.m_metadata := [] |};
    {| PineconeManager.m_id := "a"; PineconeManager.m_score := 0.8%Q;
       PineconeManager.m_metadata := [] |};
    {| PineconeManager.m_id := "c"; PineconeManager.m_score := 0.5%Q;
       PineconeManager.m_metadata := [] |} ].

Lemma query_keeps_ranked_order_witness :
  PineconeManager.query
    {| PineconeManager.outcomes := []; PineconeManager.attempts := [];
       PineconeManager.committed := [];
       PineconeManager.respond := fun _ => Ok ranked_results |}
    [1; 0]%Q 5 None 0.7%Q
  = Ok (map PineconeManager.result_of (filter (above 0.7%Q) ranked_results)).
Proof.
  apply (query_keeps_ranked_order _ [1; 0]%Q 5 None 0.7%Q ranked_results).
  - reflexivity.
  - unfold ranked_results, desc.
    repeat (constructor; [| repeat (constructor; try (cbn; vm_compute; discriminate))]).
    constructor.
Defined.

(** X15: [create_index] is idempotent and never touches an index that exists.
    After it the name is present; an index already present keeps its dimension
    and metric, whatever the manager was configured with; every other index is
    unchanged; a second call changes nothing. *)
Theorem create_index_idempotent (self : PineconeManager.Manager) (metric : string)
  (account : gmap string (Z * string)) :
  let account' := snd (PineconeManager.create_index self metric account) in
  let self' := fst (PineconeManager.create_index self metric account) in
  account' !! PineconeManager.index_name self
  = Some (default (PineconeManager.dimension self, metric)
                  (account !! PineconeManager.index_name self))
  /\ delete (PineconeManager.index_name self) account'
     = delete (PineconeManager.index_name self) account
  /\ (forall metric2, PineconeManager.create_index self' metric2 account'
                      = (self', account')).
Proof.
  cbn zeta. unfold PineconeManager.create_index. cbn [fst snd PineconeManager.index_name].
  destruct (account !! PineconeManager.index_name self) as [d |] eqn:Hd.
  - split; [exact Hd |]. split; [reflexivity |].
    intros metric2. rewrite Hd. reflexivity.
  - split; [apply lookup_insert_eq |].
    split; [apply delete_insert_eq |].
    intros metric2. rewrite lookup_insert_eq. reflexivity.
Qed.

(** ** Answers of the simple pipeline *)

Lemma length_sapp (a b : string) :
  String.length (a +:+ b) = String.length a + String.length b.
Proof.
  induction a as [| c a IH]; [reflexivity |].
  change (S (String.length (a +:+ b)) = S (String.length a + String.length b)).
  rewrite IH. reflexivity.
Qed.

Lemma length_prefix_upto (n : nat) (s : string) : String.length (prefix_upto n s) <= n.
Proof.
  revert s. induction n as [| n IH]; intros s; [cbn; lia |].
  destruct s as [| c r]; cbn; [lia |]. specialize (IH r). lia.
Qed.

Lemma default_from_context_length (context : string) :
  String.length (SimpleSustainableTravelRAG.default_from_context context) <= 247.
Proof.
  unfold SimpleSustainableTravelRAG.default_from_context.
  destruct (200 <? String.length context)%nat eqn:Hlen.
  - rewrite !length_sapp.
    pose proof (length_prefix_upto 200 context) as Hp.
    change (String.length "Based on sustainable travel best practices: ") with 44.
    change (String.length "...") with 3. lia.
  - apply Nat.ltb_ge in Hlen. lia.
Qed.

Lemma generate_response_length (question context : string) :
  String.length (SimpleSustainableTravelRAG._generate_response question context) <= 273.
Proof.
  pose proof (default_from_context_length context) as Hdefault.
  unfold SimpleSustainableTravelRAG._generate_response.
  repeat match goal with
         | |- context [if ?b then _ else _] => destruct b
         end;
    try (vm_compute; lia); lia.
Qed.

Lemma fallback_response_length (question : string) :
  String.length (SimpleSustainableTravelRAG.answer
                   (SimpleSustainableTravelRAG._fallback_response question)) <= 273.
Proof.
  unfold SimpleSustainableTravelRAG._fallback_response.
  cbn [SimpleSustainableTravelRAG.answer].
  repeat match goal with
         | |- context [if ?b then _ else _] => destruct b
         end; vm_compute; lia.
Qed.

(** X16: every reply of the simple pipeline is short: whatever the question and
    however long the retrieved documents, [get_langchain_response] returns a
    text of at most 273 characters, and never raises. *)
Theorem simple_reply_is_bounded (self : SimpleSustainableTravelRAG.Service)
  (query : string) :
  exists reply,
    SimpleSustainableTravelRAG.get_langchain_response self query = Ok reply
    /\ String.length reply <= 273.
Proof.
  unfold SimpleSustainableTravelRAG.get_langchain_response,
    SimpleSustainableTravelRAG.get_travel_advice.
  destruct (SimpleSustainableTravelRAG.vectorstore self) as [vs |];
    cbn [try_except bind].
  - destruct (SimpleSustainableTravelRAG.similarity_search vs query 3)
      as [[| d docs] | e]; cbn [try_except bind SimpleSustainableTravelRAG.answer];
      eexists; (split; [reflexivity |]);
      try apply fallback_response_length; apply generate_response_length.
  - eexists. split; [reflexivity | apply fallback_response_length].
Qed.

Lemma lower_char_idem (c : ascii) : lower_char (lower_char c) = lower_char c.
Proof.
  destruct c as [[] [] [] [] [] [] [] []]; reflexivity.
Qed.

Lemma lower_idem (s : string) : lower (lower s) = lower s.
Proof.
  induction s as [| c r IH]; [reflexivity |].
  cbn [lower]. rewrite lower_char_idem, IH. reflexivity.
Qed.

(** X17: keyword matching ignores the case of the question: a question and its
    lower-cased form get the same canned fallback and, on the same context,
    the same generated answer. *)
Theorem simple_answers_ignore_case (question context : string) :
  SimpleSustainableTravelRAG._fallback_response (lower question)
  = SimpleSustainableTravelRAG._fallback_response question
  /\ SimpleSustainableTravelRAG._generate_response (lower question) context
     = SimpleSustainableTravelRAG._generate_response question context.
Proof.
  unfold SimpleSustainableTravelRAG._fallback_response,
    SimpleSustainableTravelRAG._generate_response.
  rewrite lower_idem. split; reflexivity.
Qed.

(** ** Question enhancement and confidence of the full service *)



(** The confidence before rounding, for [n] sources and an answer of [m]
    characters. *)
Definition raw_confidence (n m : nat) : Q :=
  Qmin 0.9 (0.5 + (inject_Z (Z.of_nat n) * 0.1)
            + (inject_Z (Z.of_nat (Nat.min m 500)) / 1000))%Q.

Lemma raw_confidence_mono (n1 n2 m1 m2 : nat) :
  n1 <= n2 -> m1 <= m2 -> (raw_confidence n1 m1 <= raw_confidence n2 m2)%Q.
Proof.
  intros Hn Hm. unfold raw_confidence.
  apply Q.min_le_compat_l.
  pose proof (inject_nat_le n1 n2 Hn) as Hqn.
  pose proof (inject_nat_le (Nat.min m1 500) (Nat.min m2 500) ltac:(lia)) as Hqm.
  rewrite !Qdiv_1000. lra.
Qed.

Lemma raw_confidence_bounds (n m : nat) :
  0 < n -> (0.6 <= raw_confidence n m <= 0.9)%Q.
Proof.
  intros Hn. unfold raw_confidence. split; [| apply Q.le_min_l].
  apply Q.min_glb; [discriminate |].
  pose proof (inject_nat_le 1 n Hn) as Hqn.
  change (inject_Z (Z.of_nat 1)) with 1%Q in Hqn.
  pose proof (inject_nat_nonneg (Nat.min m 500)) as Hqm.
  rewrite Qdiv_1000. lra.
Qed.

(** The sum before the cap. *)
Definition uncapped_confidence (n m : nat) : Q :=
  (0.5 + (inject_Z (Z.of_nat n) * 0.1)
   + (inject_Z (Z.of_nat (Nat.min m 500)) / 1000))%Q.

Lemma raw_confidence_cap (n m : nat) :
  (0.9 < uncapped_confidence n m /\ raw_confidence n m == 0.9)%Q
  \/ (uncapped_confidence n m <= 0.9 /\ raw_confidence n m == uncapped_confidence n m)%Q.
Proof. apply Q.min_spec. Qed.

Lemma inject_nat_lt (a b : nat) :
  a < b -> (inject_Z (Z.of_nat a) < inject_Z (Z.of_nat b))%Q.
Proof. intros H. rewrite <- Zlt_Qlt. lia. Qed.

Lemma six_tenths : (inject_Z 60 / 100 == 0.6)%Q.
Proof. unfold Qeq. reflexivity. Qed.

Lemma nine_tenths : (0.9 == inject_Z 90 / 100)%Q.
Proof. unfold Qeq. reflexivity. Qed.

Lemma hundredths_le_round2 (x y : float) (p q : Q) :
  (hundredths x p <= hundredths y q)%Z -> (round2 x p <= round2 y q)%Q.
Proof.
  intros H. rewrite !round2_hundredths.
  apply Qmult_le_compat_r; [| discriminate].
  rewrite <- Zle_Qle. exact H.
Qed.

(** More sources or a longer answer never lower the number of hundredths:
    equal inputs to the formula give the same float, different sums below the
    cap are rounded in their order, and every sum at or above the cap gives
    ninety. *)
Lemma confidence_hundredths_mono (n1 n2 m1 m2 : nat) :
  n1 <= n2 -> m1 <= m2 ->
  (hundredths (SustainableTravelRAGService.confidence_float n1 m1) (raw_confidence n1 m1)
   <= hundredths (SustainableTravelRAGService.confidence_float n2 m2)
                 (raw_confidence n2 m2))%Z.
Proof.
  intros Hn Hm.
  destruct (decide (n1 = n2 /\ Nat.min m1 500 = Nat.min m2 500)) as [[-> Hmin] | Hne].
  - unfold SustainableTravelRAGService.confidence_float, raw_confidence.
    rewrite Hmin. apply Z.le_refl.
  - assert (Hlt : (uncapped_confidence n1 m1 < uncapped_confidence n2 m2)%Q).
    { unfold uncapped_confidence. rewrite !Qdiv_1000.
      pose proof (inject_nat_le n1 n2 Hn) as Hqn.
      pose proof (inject_nat_le (Nat.min m1 500) (Nat.min m2 500) ltac:(lia)) as Hqm.
      destruct (decide (n1 = n2)) as [-> | Hnn].
      - assert (Hmm : Nat.min m1 500 < Nat.min m2 500) by lia.
        apply inject_nat_lt in Hmm. lra.
      - assert (Hnn' : n1 < n2) by lia.
        apply inject_nat_lt in Hnn'. lra. }
    destruct (Qlt_le_dec (raw_confidence n1 m1) (raw_confidence n2 m2)) as [Hstrict | Hge].
    + apply hundredths_mono_strict, Hstrict.
    + pose proof (raw_confidence_mono n1 n2 m1 m2 Hn Hm) as Hle.
      assert (H1 : (raw_confidence n1 m1 == 0.9)%Q).
      { destruct (raw_confidence_cap n1 m1) as [[_ Hc1] | [Hu1 Hc1]]; [exact Hc1 |].
        destruct (raw_confidence_cap n2 m2) as [[_ Hc2] | [Hu2 Hc2]]; lra. }
      assert (H2 : (raw_confidence n2 m2 == 0.9)%Q) by lra.
      rewrite (hundredths_at _ _ 90) by (rewrite H1; apply nine_tenths).
      rewrite (hundredths_at _ _ 90) by (rewrite H2; apply nine_tenths).
      apply Z.le_refl.
Qed.

Lemma calculate_confidence_raw (result : SustainableTravelRAGService.ChainResult) :
  sources_of result <> [] ->
  SustainableTravelRAGService._calculate_confidence result
  = round2 (SustainableTravelRAGService.confidence_float
              (length (sources_of result)) (String.length (answer_of result)))
           (raw_confidence (length (sources_of result))
                           (String.length (answer_of result))).
Proof.
  intros Hne. unfold SustainableTravelRAGService._calculate_confidence,
    sources_of, answer_of in *.
  destruct (default [] (SustainableTravelRAGService.res_source_documents result));
    [contradiction | reflexivity].
Qed.

Lemma calculate_confidence_range (result : SustainableTravelRAGService.ChainResult) :
  (0.3 <= SustainableTravelRAGService._calculate_confidence result <= 0.9)%Q
  /\ (sources_of result <> [] ->
      (0.6 <= SustainableTravelRAGService._calculate_confidence result)%Q).
Proof.
  destruct (sources_of result) as [| d ds] eqn:Hsrc.
  - unfold SustainableTravelRAGService._calculate_confidence.
    unfold sources_of in Hsrc. rewrite Hsrc.
    split; [split; discriminate | intros H; contradiction].
  - rewrite calculate_confidence_raw by (rewrite Hsrc; discriminate).
    destruct (raw_confidence_bounds (length (sources_of result))
                (String.length (answer_of result))) as [Hlo Hhi];
      [rewrite Hsrc; cbn; lia |].
    set (x := SustainableTravelRAGService.confidence_float _ _).
    set (q := raw_confidence _ _) in *.
    assert (H60 : (60 <= hundredths x q)%Z)
      by (apply hundredths_lower; rewrite six_tenths; exact Hlo).
    assert (H90 : (hundredths x q <= 90)%Z)
      by (apply hundredths_upper; rewrite <- nine_tenths; exact Hhi).
    rewrite round2_hundredths, Qdiv_100.
    rewrite Zle_Qle in H60, H90.
    change (inject_Z 60) with 60%Q in H60. change (inject_Z 90) with 90%Q in H90.
    split; [split |]; [lra | lra | intros _; lra].
Qed.

(** X19: every confidence the full service returns lies between 0 and 0.9,
    and is at least 0.6 whenever the answer comes with sources. *)
Theorem service_confidence_in_range (self : SustainableTravelRAGService.Service)
  (question : string) (uc : option SustainableTravelRAGService.UserContext) :
  exists a,
    fst (SustainableTravelRAGService.get_travel_advice self question uc) = Ok a
    /\ (0 <= SustainableTravelRAGService.confidence a <= 0.9)%Q
    /\ (SustainableTravelRAGService.sources a = []
        \/ (0.6 <= SustainableTravelRAGService.confidence a)%Q).
Proof.
  unfold SustainableTravelRAGService.get_travel_advice.
  destruct (SustainableTravelRAGService.qa_chain self) as [chain |].
  - destruct (chain _ _) as [[result | e] msgs]; cbn [fst try_except bind].
    + eexists. split; [reflexivity |].
      cbn [SustainableTravelRAGService.confidence SustainableTravelRAGService.sources].
      destruct (calculate_confidence_range result) as [[Hlo Hhi] Hsrc].
      split; [split; [| exact Hhi] |].
      * eapply Qle_trans; [| exact Hlo]. discriminate.
      * unfold sources_of in Hsrc.
        destruct (default [] (SustainableTravelRAGService.res_source_documents result))
          as [| d ds]; [left; reflexivity | right; apply Hsrc; discriminate].
    + eexists. split; [reflexivity |]. cbn. split; [split; discriminate |].
      left. reflexivity.
  - eexists. split; [reflexivity |]. cbn. split; [split; discriminate |].
    left. reflexivity.
Qed.

(** X20: the confidence never goes down when the chain returns more sources
    or a longer answer. *)
Theorem confidence_monotone (r1 r2 : SustainableTravelRAGService.ChainResult) :
  length (sources_of r1) <= length (sources_of r2) ->
  String.length (answer_of r1) <= String.length (answer_of r2) ->
  (SustainableTravelRAGService._calculate_confidence r1
   <= SustainableTravelRAGService._calculate_confidence r2)%Q.
Proof.
  intros Hn Hm.
  destruct (sources_of r1) as [| d1 ds1] eqn:Hs1.
  - destruct (calculate_confidence_range r2) as [[Hlo _] _].
    unfold SustainableTravelRAGService._calculate_confidence at 1.
    unfold sources_of in Hs1. rewrite Hs1. exact Hlo.
  - assert (Hne2 : sources_of r2 <> []).
    { intros Hnil. rewrite Hnil in Hn. cbn in Hn. lia. }
    rewrite (calculate_confidence_raw r1) by (rewrite Hs1; discriminate).
    rewrite (calculate_confidence_raw r2) by exact Hne2.
    apply hundredths_le_round2, confidence_hundredths_mono; [| exact Hm].
    rewrite Hs1. exact Hn.
Qed.

Lemma confidence_monotone_witness :
  (SustainableTravelRAGService._calculate_confidence one_source_short_answer
   <= SustainableTravelRAGService._calculate_confidence
        {| SustainableTravelRAGService.res_answer := Some "Yes, take the train.";
           SustainableTravelRAGService.res_source_documents :=
             Some [ {| page_content := "Iceland runs on renewable energy.";
                       metadata := [] |};
                    {| page_content := "Trains emit 35g CO2 per km.";
                       metadata := [] |} ] |})%Q.
Proof.
  apply confidence_monotone.
  - cbn. lia.
  - cbn. lia.
Defined.

(** ** The shape of a cleaned text *)

(** [join " "] of a first word and the words after it. *)
Definition join_after (w : string) (ws : list string) : string :=
  match ws with
  | [] => w
  | _ => w +:+ " " +:+ join " " ws
  end.

Lemma join_cons_word (w : string) (ws : list string) :
  truthy w = true -> join " " (cons_word w ws) = join_after w ws.
Proof.
  intros Hw. destruct w as [| c w]; [discriminate Hw |].
  destruct ws; reflexivity.
Qed.

Lemma sub_ws_true_head (s : string) : head_not_space (sub_ws_go true s) = true.
Proof.
  induction s as [| c r IH]; [reflexivity |].
  cbn [sub_ws_go]. destruct (isspace c) eqn:Hc; [exact IH |].
  cbn. rewrite Hc. reflexivity.
Qed.

Lemma head_all_space_empty (s : string) :
  head_not_space s = true -> all_space s = true -> s = "".
Proof.
  destruct s as [| c r]; [reflexivity |]. cbn.
  intros Hh Ha. apply andb_true_iff in Ha as [Hc _].
  rewrite Hc in Hh. discriminate Hh.
Qed.

Lemma split_nil_all_space (s : string) : split s = [] -> all_space s = true.
Proof.
  induction s as [| c r IH]; [reflexivity |].
  rewrite split_unfold, split_go_cons.
  destruct (isspace c) eqn:Hc; cbn [fst snd cons_word all_space].
  - rewrite <- split_unfold, Hc. exact IH.
  - discriminate.
Qed.

(** The collapsed text, trimmed on the right, in both modes of [sub_ws_go]. *)
Lemma rstrip_sub_ws (s : string) :
  rstrip (sub_ws_go true s) = join " " (split s)
  /\ rstrip (sub_ws_go false s)
     = (if head_not_space s then join_after (fst (split_go s)) (snd (split_go s))
        else match split s with
             | [] => ""
             | _ => " " +:+ join " " (split s)
             end).
Proof.
  induction s as [| c r [IHt IHf]]; [split; reflexivity |].
  cbn [sub_ws_go head_not_space]. destruct (isspace c) eqn:Hc; cbn [negb].
  - rewrite (split_space c r Hc). split; [exact IHt |].
    rewrite rstrip_cons. replace (isspace " ") with true by reflexivity.
    rewrite andb_true_r.
    destruct (all_space (sub_ws_go true r)) eqn:Hall.
    + pose proof (head_all_space_empty _ (sub_ws_true_head r) Hall) as Hempty.
      rewrite Hempty in IHt. change (rstrip "") with "" in IHt.
      pose proof (split_clean r) as Hclean.
      destruct (split r) as [| w ws]; [reflexivity |].
      exfalso. apply Forall_inv in Hclean. destruct Hclean as [Hw _].
      pose proof (join_truthy w ws Hw) as Hj. rewrite <- IHt in Hj. discriminate Hj.
    + rewrite IHt.
      destruct (split r) as [| w ws] eqn:Hsr; [| reflexivity].
      exfalso. apply split_nil_all_space in Hsr.
      assert (Hsplit : split (sub_ws_go true r) = []).
      { rewrite (proj2 (split_sub_ws_go r)).
        rewrite split_unfold. rewrite (split_go_all_space r Hsr). reflexivity. }
      apply split_nil_all_space in Hsplit. rewrite Hsplit in Hall. discriminate Hall.
  - assert (Hstep : rstrip (String c (sub_ws_go false r))
                    = join_after (String c (fst (split_go r))) (snd (split_go r))).
    { rewrite rstrip_cons, Hc, andb_false_r, IHf.
      destruct (head_not_space r) eqn:Hhead.
      - unfold join_after. destruct (snd (split_go r)); reflexivity.
      - destruct r as [| c' r']; [discriminate Hhead |].
        cbn in Hhead. apply negb_false_iff in Hhead.
        rewrite split_unfold, split_go_cons, Hhead. cbn [fst snd cons_word].
        unfold join_after.
        destruct (cons_word (fst (split_go r')) (snd (split_go r'))); reflexivity. }
    rewrite split_unfold, split_go_cons, Hc. cbn [fst snd cons_word].
    split; [| exact Hstep].
    rewrite Hstep. symmetry. apply (join_cons_word (String c _)). reflexivity.
Qed.

Lemma lstrip_sub_ws (s : string) : lstrip (sub_ws_go false s) = sub_ws_go true s.
Proof.
  destruct s as [| c r]; [reflexivity |].
  cbn [sub_ws_go]. destruct (isspace c) eqn:Hc.
  - cbn [lstrip]. replace (isspace " ") with true by reflexivity.
    apply lstrip_fix, sub_ws_true_head.
  - cbn [lstrip]. rewrite Hc. reflexivity.
Qed.

(** X2: a cleaned text is its words joined by single spaces; so cleaning
    changes no word and is idempotent. *)
Theorem clean_text_is_joined_words (text : string) :
  DataProcessor.clean_text text = join " " (split text)
  /\ split (DataProcessor.clean_text text) = split text
  /\ DataProcessor.clean_text (DataProcessor.clean_text text)
     = DataProcessor.clean_text text.
Proof.
  assert (Hshape : forall t, DataProcessor.clean_text t = join " " (split t)).
  { intros t. unfold DataProcessor.clean_text, strip, sub_ws.
    rewrite lstrip_sub_ws. apply (proj1 (rstrip_sub_ws t)). }
  split; [apply Hshape |]. split; [apply clean_text_words |].
  rewrite (Hshape (DataProcessor.clean_text text)), clean_text_words.
  symmetry. apply Hshape.
Qed.
